(** * AiRA, a web-aware RAG engine: a shallow embedding of its orchestration code

    The development follows the Python sources file by file:
    [app/scraper.py] (chunking), [app/database.py] (the SQLite status store),
    [app/queue.py] (the Redis work queue), [app/vector_store.py],
    [app/llm.py] (answer generation), [app/main.py] (the HTTP front door)
    and [worker.py] (the ingestion loop).

    Python values are modelled as follows.
    - A [str] is a sequence of Unicode code points: [pystr := list N].
    - An [int] is a [Z]; a list is a [list]; [None]-able values are [option]s.
    - A raised exception is the [Raise] case of [result]; code that touches
      the database, the queue, the vector collection or the clock runs in the
      state-and-exception monad [M] over [World].
    - The external collaborators (HTTP fetch and HTML parsing, the
      embedding model, the Chroma collection, the chat completion endpoint,
      the system clock, the worker's standard output) are the [Variable]s of
      Section [AiRA]. *)

From Stdlib Require Import ZArith NArith Lia String Ascii.
From stdpp Require Import base decidable option list list_numbers strings pretty gmap.

Local Open Scope Z_scope.

(** ** Python strings *)

Definition pystr : Type := list N.

(** A source-code string literal, as the code points of its characters. *)
Definition py (s : string) : pystr :=
  (λ a : ascii, N_of_ascii a) <$> list_ascii_of_string s.

(** [str(n)] for a non-negative [int]. *)
Definition str_of_nat (n : nat) : pystr := py (pretty n).

(** [len(l)] *)
Definition len {A} (l : list A) : Z := Z.of_nat (length l).

(** ** Exceptions and results *)

Inductive exn_class : Type :=
  | ExceptionClass               (* a plain [Exception(...)] *)
  | ValueError
  | IndexError
  | IntegrityError               (* [sqlite3.IntegrityError] *)
  | ConnectionError              (* [redis.exceptions.ConnectionError] *)
  | HTTPExceptionClass (status_code : Z)   (* [fastapi.HTTPException] *)
  | OtherError (name : pystr).   (* any other subclass of [Exception] *)

Record exn : Type := Exn { exn_cls : exn_class; exn_msg : pystr }.

(** [str(e)] *)
Definition str_exn (e : exn) : pystr := exn_msg e.

Inductive result (A : Type) : Type :=
  | Ok (a : A)
  | Raise (e : exn).
Arguments Ok {A} a.
Arguments Raise {A} e.

Definition rbind {A B} (r : result A) (k : A → result B) : result B :=
  match r with
  | Ok a => k a
  | Raise e => Raise e
  end.

#[global] Instance exn_class_eq_dec : EqDecision exn_class.
Proof. solve_decision. Defined.

(** ** [str.isspace], [str.split()] and [str.join] *)

(** The code points CPython treats as whitespace ([_PyUnicode_IsWhitespace]). *)
Definition isspace (c : N) : bool :=
  ((9 <=? c) && (c <=? 13) || (28 <=? c) && (c <=? 31) || (c =? 32)
   || (c =? 133) || (c =? 160) || (c =? 5760)
   || (8192 <=? c) && (c <=? 8202) || (c =? 8232) || (c =? 8233)
   || (c =? 8239) || (c =? 8287) || (c =? 12288))%N.

(** [s.split()]: the maximal runs of non-whitespace characters, in order. *)
Fixpoint split (s : pystr) : list pystr :=
  match s with
  | [] => []
  | c :: s' =>
      if isspace c then split s'
      else match s' with
           | [] => [[c]]
           | d :: _ =>
               if isspace d then [c] :: split s'
               else match split s' with
                    | w :: ws => (c :: w) :: ws
                    | [] => [[c]]
                    end
           end
  end.

(** [sep.join(ws)] *)
Fixpoint join (sep : pystr) (ws : list pystr) : pystr :=
  match ws with
  | [] => []
  | [w] => w
  | w :: ws' => w ++ sep ++ join sep ws'
  end.

(** [s.lstrip()] and [s.strip()] *)
Fixpoint lstrip (s : pystr) : pystr :=
  match s with
  | [] => []
  | c :: s' => if isspace c then lstrip s' else s
  end.

Definition strip (s : pystr) : pystr := reverse (lstrip (reverse (lstrip s))).

(** The line boundaries of [str.splitlines]. *)
Definition is_linebreak (c : N) : bool :=
  ((10 <=? c) && (c <=? 13) || (28 <=? c) && (c <=? 30)
   || (c =? 133) || (c =? 8232) || (c =? 8233))%N.

(** Put a character in front of the first piece. *)
Definition cons_first (c : N) (pieces : list pystr) : list pystr :=
  match pieces with
  | p :: ps => (c :: p) :: ps
  | [] => [[c]]
  end.

(** [s.splitlines()]: a CR LF pair is one boundary, and a boundary at the
    very end opens no further line. *)
Fixpoint splitlines (s : pystr) : list pystr :=
  match s with
  | [] => []
  | c :: s' =>
      if is_linebreak c
      then [] :: match s' with
                 | d :: s'' => if ((c =? 13) && (d =? 10))%N
                               then splitlines s'' else splitlines s'
                 | [] => []
                 end
      else cons_first c (splitlines s')
  end.

(** [s.split("  ")]: the pieces between successive double spaces, scanning
    from the left; empty pieces are kept. *)
Fixpoint split_double_space (s : pystr) : list pystr :=
  match s with
  | [] => [[]]
  | c :: s' =>
      match s' with
      | d :: s'' => if ((c =? 32) && (d =? 32))%N
                    then [] :: split_double_space s''
                    else cons_first c (split_double_space s')
      | [] => [[c]]
      end
  end.

(** ** [range(start, stop, step)] and slicing *)

(** The length CPython computes for a range ([compute_range_length]). *)
Definition range_length (start stop step : Z) : Z :=
  if decide (0 < step)
  then (if decide (start < stop) then (stop - start - 1) `div` step + 1 else 0)
  else (if decide (stop < start) then (start - stop - 1) `div` (- step) + 1 else 0).

Definition py_range (start stop step : Z) : result (list Z) :=
  if decide (step = 0)
  then Raise (Exn ValueError (py "range() arg 3 must not be zero"))
  else Ok ((λ k, start + k * step) <$> seqZ 0 (range_length start stop step)).

(** A slice bound, clamped as [PySlice_AdjustIndices] does for step 1. *)
Definition slice_bound (n i : Z) : Z :=
  if decide (i < 0) then Z.max (i + n) 0 else Z.min i n.

(** [l[lo:hi]] *)
Definition py_slice {A} (l : list A) (lo hi : Z) : list A :=
  let lo' := slice_bound (len l) lo in
  let hi' := slice_bound (len l) hi in
  take (Z.to_nat (hi' - lo')) (drop (Z.to_nat lo') l).

(** ** app/scraper.py: [WebScraper.chunk_text] *)

Definition chunk_size_default : Z := 500.
Definition overlap_default : Z := 50.

(** One iteration of the [for] loop: build the chunk, append it if truthy. *)
Definition chunk_step (words : list pystr) (chunk_size : Z)
    (chunks : list pystr) (i : Z) : list pystr :=
  let chunk := join (py " ") (py_slice words i (i + chunk_size)) in
  if bool_decide (chunk ≠ []) then chunks ++ [chunk] else chunks.

Definition chunk_text (text : pystr) (chunk_size overlap : Z) : result (list pystr) :=
  let words := split text in
  rbind (py_range 0 (len words) (chunk_size - overlap)) (λ idxs,
  Ok (foldl (chunk_step words chunk_size) [] idxs)).


(** ** Dictionaries with a fixed set of keys, as records *)

(** A row of the [urls] table, and the dict built by [get_url_status]. *)
Module UrlRecord.
Record t : Type := mk {
  id : Z;
  url : pystr;
  status : pystr;
  created_at : pystr;
  updated_at : pystr;
  error_message : option pystr;
  chunks_count : Z
}.
End UrlRecord.

(** The per-chunk metadata dict built by [process_url]. *)
Module Metadata.
Record t : Type := mk { url : pystr; chunk_index : Z; total_chunks : Z }.
End Metadata.

(** A job on the queue: [{"url": url}].  The queue stores [json.dumps(job)]
    and [dequeue] returns [json.loads] of it; the model keeps the dict. *)
Module Job.
Record t : Type := mk { url : pystr }.
End Job.

(** A search result as [llm.py] reads it: [chunk['content']] and
    [chunk['metadata']] (the [distance] entry is never read there). *)
Module RetrievedChunk.
Record t : Type := mk { content : pystr; metadata : Metadata.t }.
End RetrievedChunk.

(** [main.IngestURLResponse] *)
Module IngestURLResponse.
Record t : Type := mk {
  message : pystr;
  url : pystr;
  status : pystr;
  job_id : option Z
}.
End IngestURLResponse.

(** The dict returned by [generate_answer_with_sources]. *)
Module Answer.
Record t : Type := mk {
  answer : option pystr;
  sources : list pystr;
  num_sources : Z
}.
End Answer.

(** A keyword argument that has a default value. *)
Inductive arg (A : Type) : Type :=
  | Omitted
  | Passed (a : A).
Arguments Omitted {A}.
Arguments Passed {A} a.

Definition arg_or {A} (default : A) (x : arg A) : A :=
  match x with
  | Omitted => default
  | Passed a => a
  end.

(** ** app/database.py: the [urls] table and its SQL statements *)

(** The table in insertion order, and the AUTOINCREMENT counter SQLite keeps
    in [sqlite_sequence]. *)
Record MetadataDB : Type := mkDB {
  rows : list UrlRecord.t;
  sqlite_sequence : Z
}.

(** [init_db] on a fresh file: [CREATE TABLE IF NOT EXISTS urls (...)]. *)
Definition init_db : MetadataDB := mkDB [] 0.

Definition max_rowid (t : MetadataDB) : Z :=
  foldr Z.max 0 (UrlRecord.id <$> rows t).

(** [INSERT INTO urls (url, status, created_at, updated_at) VALUES (?,?,?,?)];
    the result carries [cursor.lastrowid].  [url TEXT UNIQUE] makes the
    statement fail, changing nothing, when the URL is already in the table;
    [error_message] is left NULL and [chunks_count] takes its DEFAULT 0. *)
Definition sql_insert (t : MetadataDB) (url status created_at updated_at : pystr)
    : result (MetadataDB * Z) :=
  if bool_decide (url ∈ UrlRecord.url <$> rows t)
  then Raise (Exn IntegrityError (py "UNIQUE constraint failed: urls.url"))
  else
    let rowid := Z.max (sqlite_sequence t) (max_rowid t) + 1 in
    Ok (mkDB (rows t ++ [UrlRecord.mk rowid url status created_at updated_at None 0])
             rowid,
        rowid).

(** [SELECT * FROM urls WHERE url = ?] *)
Definition sql_select (t : MetadataDB) (url : pystr) : list UrlRecord.t :=
  filter (λ r, UrlRecord.url r = url) (rows t).

(** [SELECT id FROM urls WHERE url = ?] *)
Definition sql_select_id (t : MetadataDB) (url : pystr) : list Z :=
  UrlRecord.id <$> sql_select t url.

(** The assignment list of the UPDATE, applied to one row. *)
Definition set_status (status updated_at : pystr) (error_message : option pystr)
    (chunks_count : Z) (r : UrlRecord.t) : UrlRecord.t :=
  UrlRecord.mk (UrlRecord.id r) (UrlRecord.url r) status (UrlRecord.created_at r)
               updated_at error_message chunks_count.

(** [UPDATE urls SET status = ?, updated_at = ?, error_message = ?,
    chunks_count = ? WHERE url = ?] *)
Definition sql_update (t : MetadataDB) (status updated_at : pystr)
    (error_message : option pystr) (chunks_count : Z) (url : pystr) : MetadataDB :=
  mkDB ((λ r, if decide (UrlRecord.url r = url)
              then set_status status updated_at error_message chunks_count r
              else r) <$> rows t)
       (sqlite_sequence t).

(** ** The values [sqlite3] can bind to a [?]

    [cursor.execute] converts its parameters before the statement runs.  An
    [int] has to fit SQLite's INTEGER, a signed 64-bit number: otherwise the
    call raises [OverflowError].  A [str] is encoded as UTF-8, which a lone
    surrogate makes fail with [UnicodeEncodeError].  In both cases nothing
    is written. *)
Definition sqlite_int (n : Z) : bool := (- 2 ^ 63 <=? n) && (n <? 2 ^ 63).

Definition sqlite_text (s : pystr) : bool :=
  forallb (λ c, ((c <? 55296) || (57343 <? c)) && (c <=? 1114111))%N s.

Definition sqlite_opt_text (s : option pystr) : bool :=
  match s with
  | Some s => sqlite_text s
  | None => true
  end.

Definition overflow_error : exn :=
  Exn (OtherError (py "OverflowError"))
      (py "Python int too large to convert to SQLite INTEGER").

(** ** app/queue.py: the Redis server as the queue client sees it *)

Record Redis : Type := mkRedis {
  reachable : bool;                      (* does the server answer? *)
  url_processing_queue : list Job.t      (* the list under [queue_name] *)
}.

(** ** Further dictionaries: search results and the other HTTP bodies *)

(** One formatted result of [VectorStore.search]; [Float] is the type of the
    distances. *)
Module SearchHit.
Record t (Float : Type) : Type := mk {
  content : pystr;
  metadata : Metadata.t;
  distance : option Float
}.
Arguments mk {Float} content metadata distance.
Arguments content {Float} t.
Arguments metadata {Float} t.
Arguments distance {Float} t.
End SearchHit.

(** What [collection.query] returns, as [search] reads it: the values under
    ['documents'] and ['metadatas'] (either may be [None]) and the value
    under ['distances'], a key that may be missing. *)
Module QueryResult.
Record t (Float : Type) : Type := mk {
  documents : option (list (list pystr));
  metadatas : option (list (list Metadata.t));
  distances : arg (option (list (list Float)))
}.
Arguments mk {Float} documents metadatas distances.
Arguments documents {Float} t.
Arguments metadatas {Float} t.
Arguments distances {Float} t.
End QueryResult.

(** [main.QueryRequest]: [top_k: Optional[int] = 5]. *)
Module QueryRequest.
Record t : Type := mk { query : pystr; top_k : option Z }.
End QueryRequest.

(** [main.QueryResponse]: [answer] is a [str]. *)
Module QueryResponse.
Record t : Type := mk {
  query : pystr;
  answer : pystr;
  sources : list pystr;
  num_sources : Z
}.
End QueryResponse.

(** The body of [GET /queue-info]. *)
Module QueueInfo.
Record t : Type := mk { queue_length : Z; redis_connected : bool }.
End QueueInfo.

(** ** The interpreter state and the monad of effectful code *)

Section AiRA.

Set Default Proof Using "Type".

(** The Chroma collection and the embedding vectors are opaque. *)
Variable Collection : Type.
Variable Embedding : Type.

(** The [n]-th reading of [datetime.now().isoformat()]. *)
Variable clock_reading : nat → pystr.

(** The first half of the [try] block of [fetch_content]: the HTTP GET with
    [raise_for_status], the HTML parse, the removal of the script, style,
    nav, footer and header elements, and [soup.get_text()]. *)
Variable soup_get_text : pystr → result pystr.

(** [embedding_model.encode(chunks).tolist()] *)
Variable encode : list pystr → result (list Embedding).

(** [collection.add(embeddings=, documents=, metadatas=, ids=)] *)
Variable collection_add :
  Collection → list Embedding → list pystr → list Metadata.t → list pystr →
  Collection * result unit.

(** [client.chat.completions.create(model=, messages=, temperature=,
    max_tokens=)] with the fixed model and sampling arguments of [llm.py];
    [messages] is the list of (role, content) pairs, the result the
    [message.content] of each of [response.choices]. *)
Variable chat_completions_create :
  list (pystr * pystr) → result (list (option pystr)).

Record World : Type := mkWorld {
  db : MetadataDB;          (* metadata.db *)
  redis : Redis;
  collection : Collection;
  ticks : nat;              (* clock readings taken so far *)
  waited : Z                (* seconds spent in [blpop] timeouts and [time.sleep] *)
}.

Definition M (A : Type) : Type := World → World * result A.

Definition ret {A} (a : A) : M A := λ w, (w, Ok a).

Definition raise {A} (e : exn) : M A := λ w, (w, Raise e).

Definition bind {A B} (m : M A) (k : A → M B) : M B :=
  λ w, match m w with
       | (w', Ok a) => k a w'
       | (w', Raise e) => (w', Raise e)
       end.

Definition lift {A} (r : result A) : M A := λ w, (w, r).

(** [try: body / except Exception as e: handler e] *)
Definition try_except {A} (body : M A) (handler : exn → M A) : M A :=
  λ w, match body w with
       | (w', Ok a) => (w', Ok a)
       | (w', Raise e) => handler e w'
       end.

(** [try: body / except cls: handler]: other exceptions propagate. *)
Definition try_except_cls {A} (cls : exn_class) (body : M A) (handler : M A) : M A :=
  try_except body (λ e, if decide (exn_cls e = cls) then handler else raise e).

#[local] Instance M_ret : MRet M := @ret.
#[local] Instance M_bind : MBind M := λ A B k m, bind m k.

Definition with_db (d : MetadataDB) (w : World) : World :=
  mkWorld d (redis w) (collection w) (ticks w) (waited w).
Definition with_redis (r : Redis) (w : World) : World :=
  mkWorld (db w) r (collection w) (ticks w) (waited w).
Definition with_collection (c : Collection) (w : World) : World :=
  mkWorld (db w) (redis w) c (ticks w) (waited w).

(** [datetime.now().isoformat()] *)
Definition datetime_now : M pystr :=
  λ w, (mkWorld (db w) (redis w) (collection w) (S (ticks w)) (waited w),
        Ok (clock_reading (ticks w))).

(** [time.sleep(seconds)] *)
Definition sleep (seconds : Z) : M unit :=
  λ w, (mkWorld (db w) (redis w) (collection w) (ticks w) (waited w + seconds), Ok tt).

(** [cursor.execute] of a statement that can fail, then [conn.commit()]. *)
Definition db_execute {A} (stmt : MetadataDB → result (MetadataDB * A)) : M A :=
  λ w, match stmt (db w) with
       | Ok (d, a) => (with_db d w, Ok a)
       | Raise e => (w, Raise e)
       end.

(** [cursor.execute] of a SELECT and [fetchall]. *)
Definition db_query {A} (q : MetadataDB → A) : M A := λ w, (w, Ok (q (db w))).

(** ** app/database.py: [MetadataDB] methods *)

(** The model of the two writing methods covers strings that are text
    SQLite can store, [sqlite_text]: for a string with a lone surrogate the
    real call raises [UnicodeEncodeError] while binding and writes nothing.
    The callers in this repository pass such text only (the text of a
    validated [HttpUrl], the URL of a job, the status literals, the text of
    an exception); statements about a direct call carry [sqlite_text] as a
    condition. *)
Definition add_url (url : pystr) : M (option Z) :=
  now ← datetime_now;
  try_except_cls IntegrityError
    (url_id ← db_execute (λ t, sql_insert t url (py "pending") now now);
     ret (Some url_id))
    (result ← db_query (λ t, head (sql_select_id t url));
     ret result).

Definition update_status (url status : pystr) (error_message : arg (option pystr))
    (chunks_count : arg Z) : M unit :=
  now ← datetime_now;
  db_execute (λ t, if sqlite_int (arg_or 0 chunks_count)
                   then Ok (sql_update t status now (arg_or None error_message)
                                       (arg_or 0 chunks_count) url, tt)
                   else Raise overflow_error).

(** The text parameters of a call of [update_status] are ones SQLite can
    store. *)
Definition update_status_text (url status : pystr)
    (error_message : arg (option pystr)) : bool :=
  sqlite_text status && sqlite_opt_text (arg_or None error_message) && sqlite_text url.

Definition get_url_status (url : pystr) : M (option UrlRecord.t) :=
  result ← db_query (λ t, head (sql_select t url));
  ret result.

(** ** app/queue.py: [RedisQueue] methods *)

Definition connection_error : exn :=
  Exn ConnectionError (py "Error connecting to Redis").

(** [redis_client.rpush(queue_name, json.dumps(job_data))] *)
Definition rpush (job : Job.t) : M unit :=
  λ w, if reachable (redis w)
       then (with_redis (mkRedis true (url_processing_queue (redis w) ++ [job])) w, Ok tt)
       else (w, Raise connection_error).

(** [redis_client.blpop(queue_name, timeout)]: the head of the list, or
    [None] once [timeout] seconds have passed with the list still empty. *)
Definition blpop (timeout : Z) : M (option Job.t) :=
  λ w, if reachable (redis w)
       then match url_processing_queue (redis w) with
            | job :: rest => (with_redis (mkRedis true rest) w, Ok (Some job))
            | [] => (mkWorld (db w) (redis w) (collection w) (ticks w)
                             (waited w + timeout), Ok None)
            end
       else (w, Raise connection_error).

(** [redis_client.ping()] *)
Definition ping : M unit :=
  λ w, if reachable (redis w) then (w, Ok tt) else (w, Raise connection_error).

Definition enqueue (url : pystr) : M unit :=
  let job_data := Job.mk url in
  rpush job_data.

Definition dequeue : M (option Job.t) :=
  result ← blpop 1;
  match result with
  | Some job_data => ret (Some job_data)
  | None => ret None
  end.

Definition get_queue_length : M Z :=
  λ w, if reachable (redis w)
       then (w, Ok (len (url_processing_queue (redis w))))
       else (w, Raise connection_error).

Definition is_connected : M bool :=
  try_except (ping;; ret true) (λ _, ret false).

(** ** app/scraper.py: [fetch_content] and [process_url] *)

(** The clean-up of the extracted text. *)
Definition clean_text (text : pystr) : pystr :=
  let lines := strip <$> splitlines text in
  let chunks := lines ≫= (λ line, strip <$> split_double_space line) in
  join (py " ") (filter (λ chunk, chunk ≠ []) chunks).

Definition fetch_content (url : pystr) : result pystr :=
  match rbind (soup_get_text url) (λ text, Ok (clean_text text)) with
  | Ok text => Ok text
  | Raise e => Raise (Exn ExceptionClass (py "Failed to fetch content: " ++ str_exn e))
  end.

Definition process_url (url : pystr) : result (list pystr * list Metadata.t) :=
  rbind (fetch_content url) (λ content,
  rbind (chunk_text content chunk_size_default overlap_default) (λ chunks,
  let metadatas :=
    (λ i, Metadata.mk url i (len chunks)) <$> seqZ 0 (len chunks) in
  Ok (chunks, metadatas))).

(** ** app/vector_store.py: [add_documents] *)

Definition collection_add_call (embeddings : list Embedding) (documents : list pystr)
    (metadatas : list Metadata.t) (ids : list pystr) : M unit :=
  λ w, let '(c, r) := collection_add (collection w) embeddings documents metadatas ids in
       (with_collection c w, r).

Definition add_documents (chunks : list pystr) (metadatas : list Metadata.t)
    (url : pystr) : M unit :=
  embeddings ← lift (encode chunks);
  let ids := (λ i, url ++ py "_" ++ str_of_nat i) <$> seq 0 (length chunks) in
  collection_add_call embeddings chunks metadatas ids.

(** ** app/llm.py *)

Definition nl : pystr := [10%N].

Definition system_content : pystr :=
  py "You are a helpful assistant that provides accurate answers based on given context.".

Definition context_of (context_chunks : list RetrievedChunk.t) : pystr :=
  join (nl ++ nl)
    (imap (λ i chunk,
             py "Source " ++ str_of_nat (i + 1) ++ py " (from "
             ++ Metadata.url (RetrievedChunk.metadata chunk) ++ py "):" ++ nl
             ++ RetrievedChunk.content chunk)
          context_chunks).

Definition prompt_of (query context : pystr) : pystr :=
  py "You are a helpful assistant that answers questions based on the provided context."
  ++ nl
  ++ py "Use only the information from the context below to answer the question. If you cannot answer the question based on the context, say so."
  ++ nl ++ nl ++ py "Context:" ++ nl ++ context
  ++ nl ++ nl ++ py "Question: " ++ query
  ++ nl ++ nl ++ py "Answer:".

(** [l[0]] *)
Definition first_item {A} (l : list A) : result A :=
  match l with
  | a :: _ => Ok a
  | [] => Raise (Exn IndexError (py "list index out of range"))
  end.

Definition generate_answer (query : pystr) (context_chunks : list RetrievedChunk.t)
    : option pystr :=
  let context := context_of context_chunks in
  let prompt := prompt_of query context in
  match rbind (chat_completions_create
                 [(py "system", system_content); (py "user", prompt)])
              first_item with
  | Ok answer => answer
  | Raise e => Some (py "Error generating answer: " ++ str_exn e)
  end.

(** [list(set(xs))]: the distinct elements, in the set's iteration order. *)
Definition list_set (xs : list pystr) : list pystr :=
  elements (list_to_set xs : gset pystr).

Definition generate_answer_with_sources (query : pystr)
    (context_chunks : list RetrievedChunk.t) : Answer.t :=
  let answer := generate_answer query context_chunks in
  let sources :=
    list_set ((λ chunk, Metadata.url (RetrievedChunk.metadata chunk)) <$> context_chunks) in
  Answer.mk answer sources (len sources).

(** ** app/main.py: [POST /ingest-url] *)

(** [raise HTTPException(status_code=, detail=)] *)
Definition HTTPException (status_code : Z) (detail : pystr) : exn :=
  Exn (HTTPExceptionClass status_code) detail.

(** The handler; [Ok] is the 202 response. *)
Definition ingest_url (url : pystr) : M IngestURLResponse.t :=
  connected ← is_connected;
  if negb connected
  then raise (HTTPException 503 (py "Queue service is not available"))
  else
    try_except
      (job_id ← add_url url;
       enqueue url;;
       ret (IngestURLResponse.mk (py "URL submitted for processing") url
                                 (py "pending") job_id))
      (λ e, raise (HTTPException 500 (py "Failed to submit URL: " ++ str_exn e))).

(** ** worker.py: one turn of the [while True] loop of [main]

    The [print] calls of the per-job [try] statement are part of the model:
    one that raises is handled like any other failure of the job.  A
    [print] raises when the stream cannot take the text, for instance
    [UnicodeEncodeError] for a character the stream's encoding lacks.  The
    banner printed before the [try] and the message of the outer handler
    are left out; [KeyboardInterrupt], which is not an [Exception], is not
    modelled. *)

(** [sys.stdout.write(text)] as [print] calls it. *)
Variable stdout_write : pystr → result unit.

Definition print (text : pystr) : M unit := lift (stdout_write text).

(** [f"Extracted {len(chunks)} chunks from {url}"] *)
Definition extracted_text (chunks : list pystr) (url : pystr) : pystr :=
  py "Extracted " ++ str_of_nat (length chunks) ++ py " chunks from " ++ url.

(** [f"Stored chunks in vector database"] *)
Definition stored_text : pystr := py "Stored chunks in vector database".

(** The success message; it starts with U+2713, a check mark. *)
Definition success_text (url : pystr) : pystr :=
  [10003%N] ++ py " Successfully processed " ++ url.

(** The failure message; it starts with U+2717, a ballot cross. *)
Definition failure_text (url error_msg : pystr) : pystr :=
  [10007%N] ++ py " Failed to process " ++ url ++ py ": " ++ error_msg.

Definition process_job (url : pystr) : M unit :=
  try_except
    (update_status url (py "processing") Omitted Omitted;;
     '(chunks, metadatas) ← lift (process_url url);
     print (extracted_text chunks url);;
     add_documents chunks metadatas url;;
     print stored_text;;
     update_status url (py "completed") Omitted (Passed (len chunks));;
     print (success_text url))
    (λ e,
       let error_msg := str_exn e in
       update_status url (py "failed") (Passed (Some error_msg)) Omitted;;
       print (failure_text url error_msg)).

(** The two halves of that [try] statement, for the statements below. *)
Definition job_body (url : pystr) : M unit :=
  update_status url (py "processing") Omitted Omitted;;
  '(chunks, metadatas) ← lift (process_url url);
  print (extracted_text chunks url);;
  add_documents chunks metadatas url;;
  print stored_text;;
  update_status url (py "completed") Omitted (Passed (len chunks));;
  print (success_text url).

Definition job_failed (url : pystr) (e : exn) : M unit :=
  let error_msg := str_exn e in
  update_status url (py "failed") (Passed (Some error_msg)) Omitted;;
  print (failure_text url error_msg).

Definition worker_turn : M unit :=
  try_except
    (job ← dequeue;
     match job with
     | Some job => process_job (Job.url job)
     | None => sleep 1
     end)
    (λ e, sleep 5).

(** The store keeps its UNIQUE constraint: no two rows share a URL. *)
Definition db_wf (t : MetadataDB) : Prop :=
  NoDup (UrlRecord.url <$> rows t).

(** How many rows the table holds for a URL. *)
Definition records_for (t : MetadataDB) (url : pystr) : nat :=
  length (sql_select t url).

(** How many queued jobs name a URL. *)
Definition jobs_for (r : Redis) (url : pystr) : nat :=
  length (filter (λ j, Job.url j = url) (url_processing_queue r)).


(** ** app/vector_store.py: [search] *)

(** The distances Chroma reports are opaque. *)
Variable Float : Type.

(** [collection.query(query_embeddings=, n_results=)]; it reads the
    collection and leaves it as it is. *)
Variable collection_query :
  Collection → list Embedding → option Z → result (QueryResult.t Float).

(** [l[i]] for a list. *)
Definition index {A} (l : list A) (i : nat) : result A :=
  match l !! i with
  | Some a => Ok a
  | None => Raise (Exn IndexError (py "list index out of range"))
  end.

(** [x[i]] where [x] is a list or [None]. *)
Definition subscript {A} (x : option (list A)) (i : nat) : result A :=
  match x with
  | Some l => index l i
  | None => Raise (Exn (OtherError (py "TypeError"))
                       (py "'NoneType' object is not subscriptable"))
  end.

(** Running a fallible function over a list, left to right, stopping at the
    first exception. *)
Fixpoint rmapM {A B} (f : A → result B) (l : list A) : result (list B) :=
  match l with
  | [] => Ok []
  | a :: l' => rbind (f a) (λ b, rbind (rmapM f l') (λ bs, Ok (b :: bs)))
  end.

(** The dict appended for index [i] of the loop of [search]. *)
Definition format_result (results : QueryResult.t Float) (i : nat)
    : result (SearchHit.t Float) :=
  rbind (rbind (subscript (QueryResult.documents results) 0) (λ d, index d i)) (λ content,
  rbind (rbind (subscript (QueryResult.metadatas results) 0) (λ m, index m i)) (λ metadata,
  rbind (match QueryResult.distances results with
         | Passed d => rbind (rbind (subscript d 0) (λ d0, index d0 i)) (λ x, Ok (Some x))
         | Omitted => Ok None
         end) (λ distance,
  Ok (SearchHit.mk content metadata distance)))).

Definition format_results (results : QueryResult.t Float)
    : result (list (SearchHit.t Float)) :=
  match QueryResult.documents results with
  | Some (documents0 :: _) => rmapM (format_result results) (seq 0 (length documents0))
  | Some [] => Ok []
  | None => Ok []
  end.

Definition collection_query_call (query_embeddings : list Embedding) (n_results : option Z)
    : M (QueryResult.t Float) :=
  λ w, (w, collection_query (collection w) query_embeddings n_results).

Definition search (query : pystr) (top_k : option Z) : M (list (SearchHit.t Float)) :=
  query_embedding ← lift (encode [query]);
  results ← collection_query_call query_embedding top_k;
  lift (format_results results).

(** ** app/main.py: [POST /query], [GET /status/{url}] and [GET /queue-info] *)

(** The text of the [ValidationError] pydantic raises when [QueryResponse]
    is given [answer=None]. *)
Variable validation_error_text : pystr.

(** [QueryResponse(query=, answer=, sources=, num_sources=)] *)
Definition make_QueryResponse (query : pystr) (answer : option pystr)
    (sources : list pystr) (num_sources : Z) : result QueryResponse.t :=
  match answer with
  | Some a => Ok (QueryResponse.mk query a sources num_sources)
  | None => Raise (Exn (OtherError (py "ValidationError")) validation_error_text)
  end.

(** The search results as [llm.py] reads them. *)
Definition as_chunk (hit : SearchHit.t Float) : RetrievedChunk.t :=
  RetrievedChunk.mk (SearchHit.content hit) (SearchHit.metadata hit).

(** The handler of [POST /query]; [Ok] is the 200 response. *)
Definition main_query (request : QueryRequest.t) : M QueryResponse.t :=
  try_except
    (results ← search (QueryRequest.query request) (QueryRequest.top_k request);
     match results with
     | [] => raise (HTTPException 404
                      (py "No relevant documents found. Please ingest some URLs first."))
     | _ :: _ =>
         let response :=
           generate_answer_with_sources (QueryRequest.query request) (as_chunk <$> results) in
         lift (make_QueryResponse (QueryRequest.query request) (Answer.answer response)
                                  (Answer.sources response) (Answer.num_sources response))
     end)
    (λ e, match exn_cls e with
          | HTTPExceptionClass _ => raise e
          | _ => raise (HTTPException 500 (py "Query failed: " ++ str_exn e))
          end).

(** The handler of [GET /status/{url}]. *)
Definition main_get_url_status (url : pystr) : M UrlRecord.t :=
  status ← get_url_status url;
  match status with
  | None => raise (HTTPException 404 (py "URL not found"))
  | Some status => ret status
  end.

(** The Redis server goes on answering ([up]) or stops. *)
Definition network (up : bool) : M unit :=
  λ w, (with_redis (mkRedis up (url_processing_queue (redis w))) w, Ok tt).

(** The handler of [GET /queue-info]; the dict's values are evaluated in the
    order they are written, by two separate requests to the server.
    [still_up] tells whether the server still answers when the second is
    sent. *)
Definition main_queue_info (still_up : bool) : M QueueInfo.t :=
  queue_length ← get_queue_length;
  network still_up;;
  redis_connected ← is_connected;
  ret (QueueInfo.mk queue_length redis_connected).

(** ** worker.py: the first [n] turns of the loop *)


(** ** Drivers and predicates used in further statements *)

(** [for url in urls: queue.enqueue(url)] *)
Fixpoint enqueue_all (urls : list pystr) : M unit :=
  match urls with
  | [] => ret tt
  | url :: urls' => enqueue url;; enqueue_all urls'
  end.

(** [[queue.dequeue() for _ in range(n)]] *)
Fixpoint dequeue_times (n : nat) : M (list (option Job.t)) :=
  match n with
  | O => ret []
  | S n' => job ← dequeue; jobs ← dequeue_times n'; ret (job :: jobs)
  end.

(** [x in s] for strings: [x] occurs in [s] as a substring. *)
Definition occurs_in (x s : pystr) : Prop := ∃ pre post, s = pre ++ x ++ post.

(** No two rows share an id, and no id exceeds the AUTOINCREMENT counter. *)
Definition db_ids_wf (t : MetadataDB) : Prop :=
  NoDup (UrlRecord.id <$> rows t)
  ∧ Forall (λ r, 0 < UrlRecord.id r ≤ sqlite_sequence t) (rows t).

(** What the two processes and the network can do to the world: a
    submission, a worker turn, the Redis server going down or coming back. *)
Inductive step : World → World → Prop :=
  | step_ingest (url : pystr) (w : World) : step w (ingest_url url w).1
  | step_worker (w : World) : step w (worker_turn w).1
  | step_outage (up : bool) (w : World) :
      step w (with_redis (mkRedis up (url_processing_queue (redis w))) w).

(** The worlds that can arise from a fresh installation. *)
Inductive reachable_world : World → Prop :=
  | reachable_fresh (up : bool) (c : Collection) (n : nat) (z : Z) :
      reachable_world (mkWorld init_db (mkRedis up []) c n z)
  | reachable_step (w w' : World) :
      reachable_world w → step w w' → reachable_world w'.

(** The statuses a finished run leaves. *)
Definition terminal (status : pystr) : Prop :=
  status = py "completed" ∨ status = py "failed".

(** ** Predicates used in the statements *)

(** A word is a non-empty run of non-whitespace characters. *)
Definition wordlike (w : pystr) : Prop :=
  w ≠ [] ∧ Forall (λ c, isspace c = false) w.

(** The chunk the loop of [chunk_text] builds at start index [i]. *)
Definition window (words : list pystr) (chunk_size i : Z) : pystr :=
  join (py " ") (py_slice words i (i + chunk_size)).

(** Every queued job names a URL that has a record. *)
Definition jobs_have_records (w : World) : Prop :=
  ∀ job, job ∈ url_processing_queue (redis w) →
         Job.url job ∈ UrlRecord.url <$> rows (db w).

Definition world_inv (w : World) : Prop := db_wf (db w) ∧ jobs_have_records w.

(** * Properties *)

(** ** Words: [split] and [join] *)

Lemma isspace_space : isspace 32 = true.
Proof. reflexivity. Qed.

Lemma py_space : py " " = [32%N].
Proof. reflexivity. Qed.

Lemma split_space (c : N) (s : pystr) : isspace c = true → split (c :: s) = split s.
Proof. intros Hc. simpl. by rewrite Hc. Qed.

Lemma split_char_end (c : N) : isspace c = false → split [c] = [[c]].
Proof. intros Hc. simpl. by rewrite Hc. Qed.

Lemma split_char_space (c d : N) (s : pystr) :
  isspace c = false → isspace d = true → split (c :: d :: s) = [c] :: split s.
Proof. intros Hc Hd. simpl. by rewrite Hc, Hd. Qed.

Lemma split_char_char (c d : N) (s : pystr) :
  isspace c = false → isspace d = false →
  split (c :: d :: s) =
    match split (d :: s) with
    | w :: ws => (c :: w) :: ws
    | [] => [[c]]
    end.
Proof. intros Hc Hd. simpl. by rewrite Hc, Hd. Qed.

Lemma wordlike_cons (c : N) (w : pystr) :
  isspace c = false → Forall (λ c, isspace c = false) w → wordlike (c :: w).
Proof. intros Hc Hw. split; [done|]. by constructor. Qed.

Lemma split_wordlike (s : pystr) : Forall wordlike (split s).
Proof.
  induction s as [|c s IH]; [constructor|].
  destruct (isspace c) eqn:Hc; [by rewrite split_space|].
  destruct s as [|d s'].
  { rewrite split_char_end by done.
    constructor; [|constructor]. by apply wordlike_cons. }
  destruct (isspace d) eqn:Hd.
  - rewrite split_char_space by done. rewrite split_space in IH by done.
    constructor; [|done]. by apply wordlike_cons.
  - rewrite split_char_char by done.
    destruct (split (d :: s')) as [|w ws] eqn:Hs.
    + constructor; [|constructor]. by apply wordlike_cons.
    + inversion IH as [|? ? [Hne Hw] Hws]; subst.
      constructor; [|done]. by apply wordlike_cons.
Qed.

(** A word followed by whitespace is split off whole. *)
Lemma split_word_sep (w rest : pystr) (sp : N) :
  wordlike w → isspace sp = true → split (w ++ sp :: rest) = w :: split rest.
Proof.
  intros [Hne Hw] Hsp. induction w as [|c w IH]; [done|].
  inversion Hw as [|? ? Hc Hw']; subst.
  destruct w as [|d w'].
  - by apply split_char_space.
  - inversion Hw' as [|? ? Hd _]; subst.
    rewrite <-!app_comm_cons, split_char_char by done.
    rewrite app_comm_cons, IH by done. done.
Qed.

Lemma split_word (w : pystr) : wordlike w → split w = [w].
Proof.
  intros [Hne Hw]. induction w as [|c w IH]; [done|].
  inversion Hw as [|? ? Hc Hw']; subst.
  destruct w as [|d w']; [by apply split_char_end|].
  inversion Hw' as [|? ? Hd _]; subst.
  rewrite split_char_char, IH by done. done.
Qed.

(** Re-splitting a chunk gives back exactly the words it was joined from. *)
Lemma split_join (ws : list pystr) :
  Forall wordlike ws → split (join (py " ") ws) = ws.
Proof.
  rewrite py_space.
  induction 1 as [|w ws Hw Hws IH]; [done|].
  destruct ws as [|w' ws'].
  - by apply split_word.
  - change (join [32%N] (w :: w' :: ws')) with (w ++ 32%N :: join [32%N] (w' :: ws')).
    rewrite split_word_sep by done. by rewrite IH.
Qed.

Lemma join_nonempty (sep : pystr) (ws : list pystr) :
  ws ≠ [] → Forall wordlike ws → join sep ws ≠ [].
Proof.
  intros Hne Hws. destruct Hws as [|w ws [Hw _] _]; [done|].
  destruct ws; simpl; [done|]. by destruct w.
Qed.

(** ** [chunk_text]: the loop as a map over the window starts *)

Lemma len_nonneg {A} (l : list A) : 0 ≤ len l.
Proof. unfold len. lia. Qed.

Lemma py_slice_window {A} (l : list A) (i chunk_size : Z) :
  0 ≤ i → 0 < chunk_size →
  py_slice l i (i + chunk_size) = take (Z.to_nat chunk_size) (drop (Z.to_nat i) l).
Proof.
  intros Hi Hcs. unfold py_slice, slice_bound, len.
  repeat case_decide; try lia.
  apply list_eq. intros j.
  rewrite !lookup_take, !lookup_drop.
  repeat case_decide; try done;
    first [ f_equal; lia
          | symmetry; apply lookup_ge_None_2; lia
          | apply lookup_ge_None_2; lia ].
Qed.

Lemma window_nonempty (words : list pystr) (chunk_size i : Z) :
  Forall wordlike words → 0 ≤ i < len words → 0 < chunk_size →
  window words chunk_size i ≠ [].
Proof.
  intros Hw Hi Hcs. unfold window. rewrite py_slice_window by lia.
  apply join_nonempty.
  - intros Hnil. apply (f_equal length) in Hnil.
    rewrite length_take, length_drop in Hnil. unfold len in Hi. simpl in Hnil. lia.
  - by apply Forall_take, Forall_drop.
Qed.

Lemma foldl_chunk_step (words : list pystr) (chunk_size : Z) (idxs : list Z)
    (acc : list pystr) :
  Forall (λ i, window words chunk_size i ≠ []) idxs →
  foldl (chunk_step words chunk_size) acc idxs = acc ++ (window words chunk_size <$> idxs).
Proof.
  intros H. revert acc. induction H as [|i idxs Hi _ IH]; intros acc; simpl.
  - by rewrite app_nil_r.
  - rewrite IH. unfold chunk_step. fold (window words chunk_size i).
    rewrite bool_decide_true by done. by rewrite <-app_assoc.
Qed.

Lemma range_length_pos (n step : Z) (k : Z) :
  0 < step → 0 ≤ n → 0 ≤ k < range_length 0 n step → 0 ≤ k * step < n.
Proof.
  intros Hs Hn. unfold range_length.
  rewrite decide_True by done. case_decide; [|lia].
  intros [Hk0 Hk]. split; [nia|].
  assert (k ≤ (n - 0 - 1) `div` step) as Hle by lia.
  assert (step * ((n - 0 - 1) `div` step) ≤ n - 0 - 1) by (apply Z.mul_div_le; lia).
  nia.
Qed.

(** With a positive stride and a positive chunk size, every loop iteration
    appends its window: the result is the list of windows. *)
Lemma chunk_text_windows (text : pystr) (chunk_size overlap : Z) :
  0 < chunk_size → overlap < chunk_size →
  chunk_text text chunk_size overlap =
    Ok ((λ k, window (split text) chunk_size (k * (chunk_size - overlap)))
          <$> seqZ 0 (range_length 0 (len (split text)) (chunk_size - overlap))).
Proof.
  intros Hcs Hov. unfold chunk_text, py_range.
  rewrite decide_False by lia. simpl. f_equal.
  rewrite foldl_chunk_step.
  - simpl. rewrite <-list_fmap_compose. done.
  - apply Forall_fmap, Forall_seqZ. intros k Hk. simpl.
    apply window_nonempty; [apply split_wordlike| |done].
    apply range_length_pos; [lia|apply len_nonneg|lia].
Qed.

Lemma lookup_windows (words : list pystr) (chunk_size stride n : Z) (k : nat) (c : pystr) :
  ((λ k, window words chunk_size (k * stride)) <$> seqZ 0 n) !! k = Some c ↔
  Z.of_nat k < n ∧ c = window words chunk_size (Z.of_nat k * stride).
Proof.
  rewrite list_lookup_fmap_Some. setoid_rewrite lookup_seqZ. split.
  - intros (i & -> & [-> Hk]). simpl. done.
  - intros [Hk ->]. exists (Z.of_nat k). split; [done|]. split; [lia|done].
Qed.

(** The words of a window are a contiguous run of the words of the text. *)
Lemma split_window (words : list pystr) (chunk_size i : Z) :
  Forall wordlike words → 0 ≤ i → 0 < chunk_size →
  split (window words chunk_size i) =
    take (Z.to_nat chunk_size) (drop (Z.to_nat i) words).
Proof.
  intros Hw Hi Hcs. unfold window. rewrite py_slice_window by done.
  apply split_join. by apply Forall_take, Forall_drop.
Qed.

Lemma range_length_covers (n step : Z) (j : Z) :
  0 < step → 0 ≤ j < n → j `div` step < range_length 0 n step.
Proof.
  intros Hs Hj. unfold range_length.
  rewrite decide_True by done. rewrite decide_True by lia.
  assert (j `div` step ≤ (n - 0 - 1) `div` step) by (apply Z.div_le_mono; lia).
  lia.
Qed.

(** The general statement behind the chunking claims: windows of at most
    [chunk_size] whole words, [chunk_size - overlap] words apart, that
    together cover the text. *)
Lemma chunk_text_spec (text : pystr) (chunk_size overlap : Z) :
  0 ≤ overlap → overlap < chunk_size →
  ∃ chunks,
    chunk_text text chunk_size overlap = Ok chunks
    ∧ len chunks = range_length 0 (len (split text)) (chunk_size - overlap)
    ∧ (∀ (k : nat) c, chunks !! k = Some c →
         split c = take (Z.to_nat chunk_size)
                        (drop (Z.to_nat (Z.of_nat k * (chunk_size - overlap))) (split text))
         ∧ len (split c) ≤ chunk_size)
    ∧ (∀ (j : nat) w, split text !! j = Some w →
         ∃ c, chunks !! Z.to_nat (Z.of_nat j `div` (chunk_size - overlap)) = Some c
              ∧ split c !! Z.to_nat (Z.of_nat j `mod` (chunk_size - overlap)) = Some w).
Proof.
  intros Hov Hcs. eexists. split; [apply chunk_text_windows; lia|].
  set (st := chunk_size - overlap). assert (0 < st) as Hst by (unfold st; lia).
  set (words := split text).
  assert (Forall wordlike words) as Hw by apply split_wordlike.
  split; [|split].
  - unfold len. rewrite length_fmap, length_seqZ.
    unfold range_length. repeat case_decide; try lia.
    assert (0 ≤ (Z.of_nat (length words) - 0 - 1) `div` st) by (apply Z.div_pos; lia).
    lia.
  - intros k c [Hk ->]%lookup_windows.
    rewrite split_window; [|done|nia|lia]. split; [done|].
    unfold len. rewrite length_take. lia.
  - intros j w Hj.
    assert (0 ≤ Z.of_nat j < len words) as Hjn.
    { apply lookup_lt_Some in Hj. unfold len. lia. }
    pose proof (range_length_covers _ _ _ Hst Hjn) as Hk.
    assert (0 ≤ Z.of_nat j `div` st) as Hk0 by (apply Z.div_pos; lia).
    pose proof (Z.mod_pos_bound (Z.of_nat j) st Hst) as Hm.
    pose proof (Z.div_mod (Z.of_nat j) st ltac:(lia)) as Hdm.
    eexists. split.
    + apply lookup_windows. split; [|done]. lia.
    + rewrite split_window; [|done|nia|lia].
      rewrite lookup_take_lt by lia. rewrite lookup_drop, <-Hj. f_equal.
      rewrite Z2Nat.id by done. lia.
Qed.

(** ** C2 *)

(** C2. For every text, [chunk_text(text, 500, 50)] returns chunks such that
    each chunk, split again on whitespace, is a run of at most 500
    consecutive whole words of the text (no word is cut); every word of the
    text, at every position, occurs in a chunk; and a text with no words
    (empty or whitespace only) gives the empty list, not an error. *)
Theorem chunk_text_coverage (text : pystr) :
  ∃ chunks,
    chunk_text text 500 50 = Ok chunks
    ∧ (∀ (k : nat) c, chunks !! k = Some c →
         split c = take 500 (drop (450 * k) (split text))
         ∧ (length (split c) ≤ 500)%nat)
    ∧ (∀ (j : nat) w, split text !! j = Some w →
         ∃ c, chunks !! (j / 450)%nat = Some c
              ∧ split c !! (j mod 450)%nat = Some w)
    ∧ (split text = [] → chunks = []).
Proof.
  destruct (chunk_text_spec text 500 50) as (chunks & Hrun & Hlen & Hchunk & Hcover);
    [lia..|].
  exists chunks. split; [done|]. split; [|split].
  - intros k c Hc. destruct (Hchunk k c Hc) as [Hsplit Hle].
    split.
    + rewrite Hsplit. f_equal. f_equal. lia.
    + unfold len in Hle. lia.
  - intros j w Hj. destruct (Hcover j w Hj) as (c & Hc & Hw).
    exists c. split.
    + rewrite <-Hc. f_equal.
      change (500 - 50) with (Z.of_nat 450). rewrite <-Nat2Z.inj_div. lia.
    + rewrite <-Hw. f_equal.
      change (500 - 50) with (Z.of_nat 450). rewrite <-Nat2Z.inj_mod. lia.
  - intros Hnil. rewrite Hnil in Hlen. unfold len in Hlen.
    destruct chunks; [done|]. vm_compute in Hlen. lia.
Qed.

(** ** C3 *)

Lemma chunk_text_zero_stride (text : pystr) (chunk_size : Z) :
  chunk_text text chunk_size chunk_size =
    Raise (Exn ValueError (py "range() arg 3 must not be zero")).
Proof.
  unfold chunk_text, py_range. by rewrite decide_True by lia.
Qed.

Lemma chunk_text_negative_stride (text : pystr) (chunk_size overlap : Z) :
  chunk_size < overlap → chunk_text text chunk_size overlap = Ok [].
Proof.
  intros H. unfold chunk_text, py_range, range_length.
  rewrite decide_False by lia. rewrite decide_False by lia.
  pose proof (len_nonneg (split text)).
  rewrite decide_False by lia. done.
Qed.

(** C3, as stated, fails: nothing validates the parameters.  A call with
    [overlap = chunk_size] gets as far as the loop header, where [range]
    raises [ValueError] at run time, and a call with [overlap > chunk_size]
    is not rejected at all: it returns normally, with no chunks. *)
Lemma chunk_text_overlap_not_rejected :
  chunk_text (py "a b c") 2 2 =
    Raise (Exn ValueError (py "range() arg 3 must not be zero"))
  ∧ chunk_text (py "a b c") 2 3 = Ok [].
Proof. split; vm_compute; reflexivity. Qed.

(** C3, amended. [chunk_text] does not validate its parameters: when
    [overlap = chunk_size] every call raises the [ValueError] of
    [range(0, n, 0)], after the text has been split; when
    [overlap > chunk_size] every call returns the empty list and no error. *)
Theorem chunk_text_overlap_ge (text : pystr) (chunk_size overlap : Z) :
  chunk_size ≤ overlap →
  chunk_text text chunk_size overlap =
    if decide (overlap = chunk_size)
    then Raise (Exn ValueError (py "range() arg 3 must not be zero"))
    else Ok [].
Proof.
  intros H. case_decide as Heq.
  - subst. apply chunk_text_zero_stride.
  - apply chunk_text_negative_stride. lia.
Qed.

Lemma chunk_text_overlap_ge_witness :
  chunk_text (py "one two three") 5 5 =
    Raise (Exn ValueError (py "range() arg 3 must not be zero"))
  ∧ chunk_text (py "one two three") 5 9 = Ok [].
Proof.
  split.
  - apply (chunk_text_overlap_ge (py "one two three") 5 5). lia.
  - apply (chunk_text_overlap_ge (py "one two three") 5 9). lia.
Defined.

(** The defaults that [process_url] passes never raise. *)
Lemma chunk_text_default_ok (text : pystr) :
  ∃ chunks, chunk_text text chunk_size_default overlap_default = Ok chunks.
Proof. eexists. apply chunk_text_windows; done. Qed.

(** ** C8 *)

(** C8. When the extracted text has exactly 1200 words, [process_url]
    returns exactly three chunks, holding words 0-499, 450-949 and 900-1199,
    and three metadata dicts with [chunk_index] 0, 1, 2, each with
    [total_chunks = 3] and the source URL; the two lists have equal length. *)
Theorem process_url_1200_words (url text : pystr) :
  fetch_content url = Ok text →
  length (split text) = 1200%nat →
  ∃ c0 c1 c2 metadatas,
    process_url url = Ok ([c0; c1; c2], metadatas)
    ∧ metadatas = [Metadata.mk url 0 3; Metadata.mk url 1 3; Metadata.mk url 2 3]
    ∧ length metadatas = length [c0; c1; c2]
    ∧ split c0 = take 500 (split text)
    ∧ split c1 = take 500 (drop 450 (split text))
    ∧ split c2 = drop 900 (split text).
Proof.
  intros Hget Hlen.
  unfold process_url. rewrite Hget. cbn [rbind].
  unfold chunk_size_default, overlap_default.
  rewrite chunk_text_windows by done. unfold len at 1. rewrite Hlen.
  change (range_length 0 (Z.of_nat 1200) (500 - 50)) with 3.
  change (seqZ 0 3) with [0; 1; 2]. cbn [rbind fmap list_fmap].
  unfold len. cbn [length]. change (seqZ 0 (Z.of_nat 3)) with [0; 1; 2].
  cbn [fmap list_fmap].
  do 4 eexists. split; [reflexivity|].
  pose proof (split_wordlike text) as Hw.
  split; [done|]. split; [done|].
  rewrite !split_window by (done || lia).
  split; [done|]. split; [done|].
  apply take_ge. rewrite length_drop, Hlen. vm_compute. lia.
Qed.

(** ** The [urls] table: SELECT after UPDATE, and the UNIQUE invariant *)

Lemma set_status_set_status s1 n1 e1 c1 s2 n2 e2 c2 (r : UrlRecord.t) :
  set_status s2 n2 e2 c2 (set_status s1 n1 e1 c1 r) = set_status s2 n2 e2 c2 r.
Proof. reflexivity. Qed.

Lemma sql_select_update_same (t : MetadataDB) status now em cc (url : pystr) :
  sql_select (sql_update t status now em cc url) url =
    set_status status now em cc <$> sql_select t url.
Proof.
  unfold sql_select, sql_update. simpl.
  induction (rows t) as [|r l IH]; [done|].
  rewrite fmap_cons. cbn beta.
  destruct (decide (UrlRecord.url r = url)) as [Hr|Hr].
  - rewrite !filter_cons_True by done. rewrite fmap_cons. by f_equal.
  - rewrite !filter_cons_False by done. done.
Qed.

Lemma sql_select_update_other (t : MetadataDB) status now em cc (url url' : pystr) :
  url' ≠ url →
  sql_select (sql_update t status now em cc url) url' = sql_select t url'.
Proof.
  intros Hne. unfold sql_select, sql_update. simpl.
  induction (rows t) as [|r l IH]; [done|].
  rewrite fmap_cons. cbn beta.
  destruct (decide (UrlRecord.url r = url)) as [Hr|Hr].
  - rewrite !filter_cons_False by (simpl; congruence). done.
  - destruct (decide (UrlRecord.url r = url')) as [Hr'|Hr'].
    + rewrite !filter_cons_True by done. by f_equal.
    + rewrite !filter_cons_False by done. done.
Qed.

Lemma sql_select_nil (t : MetadataDB) (url : pystr) :
  sql_select t url = [] ↔ url ∉ UrlRecord.url <$> rows t.
Proof.
  unfold sql_select. induction (rows t) as [|r l IH]; simpl.
  - split; [|done]. intros _. apply not_elem_of_nil.
  - rewrite filter_cons, not_elem_of_cons. case_decide as Hr.
    + split; [done|]. intros [Hne _]. congruence.
    + rewrite IH. split; [|by intros [_ H]]. intros H. split; [congruence|done].
Qed.

Lemma sql_update_absent (t : MetadataDB) status now em cc (url : pystr) :
  sql_select t url = [] → sql_update t status now em cc url = t.
Proof.
  rewrite sql_select_nil. unfold sql_update. destruct t as [l n]. simpl.
  intros Hnot. f_equal.
  induction l as [|r l IH]; [done|].
  rewrite fmap_cons, not_elem_of_cons in Hnot. destruct Hnot as [Hne Hnot].
  rewrite fmap_cons, decide_False by congruence. f_equal. by apply IH.
Qed.

Lemma sql_update_urls (t : MetadataDB) status now em cc (url : pystr) :
  UrlRecord.url <$> rows (sql_update t status now em cc url) = UrlRecord.url <$> rows t.
Proof.
  unfold sql_update. simpl. rewrite <-list_fmap_compose.
  apply list_fmap_ext. intros i r _. simpl. by case_decide.
Qed.

Lemma init_db_wf : db_wf init_db.
Proof. apply NoDup_nil_2. Qed.

Lemma sql_update_wf (t : MetadataDB) status now em cc (url : pystr) :
  db_wf t → db_wf (sql_update t status now em cc url).
Proof. unfold db_wf. by rewrite sql_update_urls. Qed.

Lemma sql_insert_wf (t t' : MetadataDB) url status created updated (rowid : Z) :
  db_wf t → sql_insert t url status created updated = Ok (t', rowid) → db_wf t'.
Proof.
  unfold db_wf, sql_insert. intros Hwf. case_bool_decide as Hin; [done|].
  intros [= <- _]. simpl. rewrite fmap_app. apply NoDup_app.
  split; [done|]. split.
  - intros u Hu [->|[]%elem_of_nil]%elem_of_cons. done.
  - apply NoDup_singleton.
Qed.

(** Under the UNIQUE constraint a URL has at most one row. *)
Lemma db_wf_one_record (t : MetadataDB) (url : pystr) (r : UrlRecord.t) :
  db_wf t → head (sql_select t url) = Some r → sql_select t url = [r].
Proof.
  unfold db_wf, sql_select. induction (rows t) as [|r0 l IH]; [done|].
  rewrite fmap_cons, NoDup_cons, filter_cons. intros [Hnot Hnd].
  case_decide as Hr.
  - simpl. intros [= ->]. f_equal.
    change (filter (λ r, UrlRecord.url r = url) l) with (sql_select (mkDB l 0) url).
    apply sql_select_nil. simpl. by rewrite <-Hr.
  - by apply IH.
Qed.

(** Of two UPDATEs for one URL the second overwrites the first. *)
Lemma sql_update_sql_update (t : MetadataDB) s1 n1 e1 c1 s2 n2 e2 c2 (url : pystr) :
  sql_update (sql_update t s1 n1 e1 c1 url) s2 n2 e2 c2 url =
    sql_update t s2 n2 e2 c2 url.
Proof.
  unfold sql_update. simpl. f_equal. rewrite <-list_fmap_compose.
  apply list_fmap_ext. intros i r _. simpl.
  destruct (decide (UrlRecord.url r = url)) as [Hr|Hr].
  - rewrite decide_True by done. done.
  - rewrite decide_False by done. done.
Qed.

(** ** Running the [MetadataDB] and [RedisQueue] methods *)

Lemma update_status_run (url status : pystr) em cc (w : World) :
  update_status url status em cc w =
    if sqlite_int (arg_or 0 cc)
    then (mkWorld (sql_update (db w) status (clock_reading (ticks w))
                              (arg_or None em) (arg_or 0 cc) url)
                  (redis w) (collection w) (S (ticks w)) (waited w),
          Ok tt)
    else (mkWorld (db w) (redis w) (collection w) (S (ticks w)) (waited w),
          Raise overflow_error).
Proof.
  unfold update_status, db_execute, mbind, M_bind, bind, datetime_now.
  cbn [db]. by destruct (sqlite_int (arg_or 0 cc)).
Qed.

(** Without a [chunks_count] the default 0 is bound, and the call returns. *)
Lemma update_status_omitted (url status : pystr) em (w : World) :
  update_status url status em Omitted w =
    (mkWorld (sql_update (db w) status (clock_reading (ticks w)) (arg_or None em) 0 url)
             (redis w) (collection w) (S (ticks w)) (waited w),
     Ok tt).
Proof. by rewrite update_status_run. Qed.

Lemma add_url_existing (url : pystr) (w : World) :
  url ∈ UrlRecord.url <$> rows (db w) →
  add_url url w =
    (mkWorld (db w) (redis w) (collection w) (S (ticks w)) (waited w),
     Ok (head (sql_select_id (db w) url))).
Proof.
  intros Hin. unfold add_url, try_except_cls, try_except, db_execute, sql_insert.
  unfold mbind, M_bind, bind, datetime_now. simpl.
  rewrite bool_decide_true by done. simpl. done.
Qed.

Lemma add_url_fresh (url : pystr) (w : World) :
  url ∉ UrlRecord.url <$> rows (db w) →
  let rowid := Z.max (sqlite_sequence (db w)) (max_rowid (db w)) + 1 in
  let now := clock_reading (ticks w) in
  add_url url w =
    (mkWorld (mkDB (rows (db w) ++ [UrlRecord.mk rowid url (py "pending") now now None 0])
                   rowid)
             (redis w) (collection w) (S (ticks w)) (waited w),
     Ok (Some rowid)).
Proof.
  intros Hin. unfold add_url, try_except_cls, try_except, db_execute, sql_insert.
  unfold mbind, M_bind, bind, datetime_now. simpl.
  rewrite bool_decide_false by done. simpl. done.
Qed.

Lemma is_connected_run (w : World) : is_connected w = (w, Ok (reachable (redis w))).
Proof.
  unfold is_connected, try_except, ping, mbind, M_bind, bind.
  by destruct (reachable (redis w)).
Qed.

Lemma enqueue_run (url : pystr) (w : World) :
  reachable (redis w) = true →
  enqueue url w =
    (with_redis (mkRedis true (url_processing_queue (redis w) ++ [Job.mk url])) w, Ok tt).
Proof. intros H. unfold enqueue, rpush. by rewrite H. Qed.

Lemma dequeue_job (job : Job.t) (rest : list Job.t) (w : World) :
  reachable (redis w) = true →
  url_processing_queue (redis w) = job :: rest →
  dequeue w = (with_redis (mkRedis true rest) w, Ok (Some job)).
Proof.
  intros Hr Hq. unfold dequeue, blpop, mbind, M_bind, bind. by rewrite Hr, Hq.
Qed.

Lemma dequeue_none (w : World) :
  reachable (redis w) = true →
  url_processing_queue (redis w) = [] →
  dequeue w =
    (mkWorld (db w) (redis w) (collection w) (ticks w) (waited w + 1), Ok None).
Proof.
  intros Hr Hq. unfold dequeue, blpop, mbind, M_bind, bind. by rewrite Hr, Hq.
Qed.

(** ** C5 and C10 *)

(** C5, amended. For a URL that has a record and text SQLite can store
    (no lone surrogate), a call of [update_status] with a chunk count within
    the signed 64-bit range returns normally and the URL's record afterwards
    has the new [status], the clock reading as [updated_at], the given
    [error_message] (None when omitted) and the given [chunks_count] (0 when
    omitted), with [id], [url] and [created_at] as before; the records
    selected for any other URL are unchanged, and every row keeps its place,
    its [id], [url] and [created_at].  With a chunk count outside that range
    the call raises [OverflowError] and the store is what it was. *)
Theorem update_status_overwrites_four_fields
    (url status : pystr) (em : arg (option pystr)) (cc : arg Z)
    (w : World) (r : UrlRecord.t) :
  head (sql_select (db w) url) = Some r →
  update_status_text url status em = true →
  let w' := (update_status url status em cc w).1 in
  (sqlite_int (arg_or 0 cc) = true →
     (update_status url status em cc w).2 = Ok tt
     ∧ head (sql_select (db w') url) =
         Some (UrlRecord.mk (UrlRecord.id r) (UrlRecord.url r) status
                            (UrlRecord.created_at r) (clock_reading (ticks w))
                            (match em with Omitted => None | Passed m => m end)
                            (match cc with Omitted => 0 | Passed n => n end))
     ∧ (∀ url', url' ≠ url → sql_select (db w') url' = sql_select (db w) url')
     ∧ (∀ (i : nat) r0, rows (db w) !! i = Some r0 →
          ∃ r1, rows (db w') !! i = Some r1
                ∧ UrlRecord.id r1 = UrlRecord.id r0
                ∧ UrlRecord.url r1 = UrlRecord.url r0
                ∧ UrlRecord.created_at r1 = UrlRecord.created_at r0
                ∧ (UrlRecord.url r0 ≠ url → r1 = r0))
     ∧ length (rows (db w')) = length (rows (db w))
     ∧ sqlite_sequence (db w') = sqlite_sequence (db w))
  ∧ (sqlite_int (arg_or 0 cc) = false →
       (update_status url status em cc w).2 = Raise overflow_error
       ∧ db w' = db w).
Proof.
  intros Hr _ w'. subst w'. rewrite update_status_run.
  split; intros ->; [|done]. simpl.
  split; [done|]. split; [|split; [|split; [|split]]].
  - rewrite sql_select_update_same. destruct (sql_select (db w) url); [done|].
    simpl in *. injection Hr as ->. by destruct em, cc.
  - intros url' Hne. by apply sql_select_update_other.
  - intros i r0 Hi. rewrite list_lookup_fmap, Hi. simpl.
    eexists. split; [done|]. by case_decide.
  - by rewrite length_fmap.
  - done.
Qed.

(** C10, amended. For a URL without a record and text SQLite can store,
    [update_status] leaves the store exactly as it was: same rows, same
    counter.  It returns normally when the chunk count is within the signed
    64-bit range and raises [OverflowError] otherwise. *)
Theorem update_status_unknown_url
    (url status : pystr) (em : arg (option pystr)) (cc : arg Z) (w : World) :
  sql_select (db w) url = [] →
  update_status_text url status em = true →
  (update_status url status em cc w).2 =
    (if sqlite_int (arg_or 0 cc) then Ok tt else Raise overflow_error)
  ∧ db (update_status url status em cc w).1 = db w.
Proof.
  intros Hnone _. rewrite update_status_run.
  destruct (sqlite_int (arg_or 0 cc)); cbn [fst snd db]; [|done].
  split; [done|]. by apply sql_update_absent.
Qed.

(** ** C1 *)

Lemma sql_select_some_elem (t : MetadataDB) (url : pystr) (r : UrlRecord.t) :
  head (sql_select t url) = Some r → url ∈ UrlRecord.url <$> rows t.
Proof.
  intros Hr. destruct (decide (url ∈ UrlRecord.url <$> rows t)) as [|Hnot]; [done|].
  apply sql_select_nil in Hnot. by rewrite Hnot in Hr.
Qed.

Lemma ingest_url_unreachable (url : pystr) (w : World) :
  reachable (redis w) = false →
  ingest_url url w = (w, Raise (HTTPException 503 (py "Queue service is not available"))).
Proof.
  intros Hr. unfold ingest_url, mbind, M_bind, bind.
  rewrite is_connected_run, Hr. done.
Qed.

Lemma ingest_url_run (url : pystr) (w : World) :
  reachable (redis w) = true →
  ∃ w1 job_id,
    add_url url w = (w1, Ok job_id)
    ∧ ingest_url url w =
        (with_redis (mkRedis true (url_processing_queue (redis w) ++ [Job.mk url])) w1,
         Ok (IngestURLResponse.mk (py "URL submitted for processing") url
                                  (py "pending") job_id)).
Proof.
  intros Hr. unfold ingest_url, mbind, M_bind, bind.
  rewrite is_connected_run, Hr. cbn [negb]. unfold try_except.
  destruct (decide (url ∈ UrlRecord.url <$> rows (db w))) as [Hin|Hnot].
  - rewrite add_url_existing by done. do 2 eexists. split; [done|].
    rewrite enqueue_run by done. done.
  - rewrite add_url_fresh by done. do 2 eexists. split; [done|].
    rewrite enqueue_run by done. done.
Qed.

(** C1, amended. Submitting a URL that already has a record (queue
    reachable) is answered with the existing record's id, leaves the status
    store as it was, with exactly one record for the URL, and appends one
    more job for the URL at the tail of the queue. *)
Theorem ingest_url_resubmission (url : pystr) (w : World) (r : UrlRecord.t) :
  db_wf (db w) →
  reachable (redis w) = true →
  head (sql_select (db w) url) = Some r →
  ∃ w',
    ingest_url url w =
      (w', Ok (IngestURLResponse.mk (py "URL submitted for processing") url
                                    (py "pending") (Some (UrlRecord.id r))))
    ∧ db w' = db w
    ∧ records_for (db w') url = 1%nat
    ∧ url_processing_queue (redis w') = url_processing_queue (redis w) ++ [Job.mk url]
    ∧ jobs_for (redis w') url = S (jobs_for (redis w) url).
Proof.
  intros Hwf Hreach Hr.
  destruct (ingest_url_run url w Hreach) as (w1 & job_id & Hadd & Hrun).
  rewrite add_url_existing in Hadd by eauto using sql_select_some_elem.
  injection Hadd as <- <-.
  eexists. split.
  { rewrite Hrun. do 2 f_equal. f_equal. unfold sql_select_id.
    destruct (sql_select (db w) url); [done|]. simpl in *. congruence. }
  simpl. split; [done|]. split; [|split].
  - unfold records_for. by rewrite (db_wf_one_record _ _ r).
  - done.
  - unfold jobs_for. simpl. rewrite filter_app, length_app.
    rewrite filter_cons_True by done. simpl. lia.
Qed.

(** ** C9 *)

(** C9. With the server reachable and the list empty, [dequeue] raises
    nothing: it returns [None], having blocked for the one-second timeout,
    and leaves queue and store as they were. *)
Theorem dequeue_empty (w : World) :
  reachable (redis w) = true →
  url_processing_queue (redis w) = [] →
  dequeue w =
    (mkWorld (db w) (redis w) (collection w) (ticks w) (waited w + 1), Ok None).
Proof. apply dequeue_none. Qed.

(** ** C4 *)

(** [add_documents] touches the collection only, and its outcome depends on
    the collection only. *)
Lemma add_documents_frame chunks metadatas (url : pystr) (w : World) :
  let w' := (add_documents chunks metadatas url w).1 in
  db w' = db w ∧ redis w' = redis w ∧ ticks w' = ticks w ∧ waited w' = waited w.
Proof.
  unfold add_documents, collection_add_call, lift, mbind, M_bind, bind.
  destruct (encode chunks) as [embeddings|e]; [|done].
  by destruct (collection_add _ _ _ _ _).
Qed.

Lemma add_documents_outcome chunks metadatas (url : pystr) (w1 w2 : World) :
  collection w1 = collection w2 →
  (add_documents chunks metadatas url w1).2 = (add_documents chunks metadatas url w2).2.
Proof.
  intros Hc. unfold add_documents, collection_add_call, lift, mbind, M_bind, bind.
  destruct (encode chunks) as [embeddings|e]; [|done].
  rewrite Hc. by destruct (collection_add _ _ _ _ _).
Qed.

Lemma add_documents_collection chunks metadatas (url : pystr) (w1 w2 : World) :
  collection w1 = collection w2 →
  collection (add_documents chunks metadatas url w1).1 =
    collection (add_documents chunks metadatas url w2).1.
Proof.
  intros Hc. unfold add_documents, collection_add_call, lift, mbind, M_bind, bind.
  destruct (encode chunks) as [embeddings|e]; [|done].
  rewrite Hc. by destruct (collection_add _ _ _ _ _).
Qed.

Lemma process_job_unfold (url : pystr) :
  process_job url = try_except (job_body url) (job_failed url).
Proof. reflexivity. Qed.

(** The body of the [try], case by case. *)
Lemma job_body_run (url : pystr) (w : World) :
  let w1 := (update_status url (py "processing") Omitted Omitted w).1 in
  job_body url w =
    match process_url url with
    | Raise e => (w1, Raise e)
    | Ok (chunks, metadatas) =>
        match stdout_write (extracted_text chunks url) with
        | Raise e => (w1, Raise e)
        | Ok _ =>
            match add_documents chunks metadatas url w1 with
            | (w2, Raise e) => (w2, Raise e)
            | (w2, Ok _) =>
                match stdout_write stored_text with
                | Raise e => (w2, Raise e)
                | Ok _ =>
                    match update_status url (py "completed") Omitted
                                        (Passed (len chunks)) w2 with
                    | (w3, Raise e) => (w3, Raise e)
                    | (w3, Ok _) => (w3, stdout_write (success_text url))
                    end
                end
            end
        end
    end.
Proof.
  intros w1. subst w1. unfold job_body, print, lift, mbind, M_bind, bind.
  rewrite update_status_omitted. cbn [fst].
  destruct (process_url url) as [[chunks metadatas]|e]; [|done].
  destruct (stdout_write (extracted_text chunks url)) as [[]|e]; [|done].
  destruct (add_documents chunks metadatas url _) as [w2 [[]|e]]; [|done].
  destruct (stdout_write stored_text) as [[]|e]; [|done].
  by destruct (update_status url (py "completed") Omitted (Passed (len chunks)) w2)
    as [w3 [[]|e]].
Qed.

(** The handler of the [try]: the record is marked failed, then the message
    is printed. *)
Lemma job_failed_run (url : pystr) (e : exn) (w : World) :
  job_failed url e w =
    (mkWorld (sql_update (db w) (py "failed") (clock_reading (ticks w))
                         (Some (str_exn e)) 0 url)
             (redis w) (collection w) (S (ticks w)) (waited w),
     stdout_write (failure_text url (str_exn e))).
Proof.
  unfold job_failed, print, lift, mbind, M_bind, bind.
  by rewrite update_status_omitted.
Qed.

Lemma process_job_ok (url : pystr) (w w' : World) :
  job_body url w = (w', Ok tt) → process_job url w = (w', Ok tt).
Proof. intros H. rewrite process_job_unfold. unfold try_except. by rewrite H. Qed.

Lemma process_job_raise (url : pystr) (w w' : World) (e : exn) :
  job_body url w = (w', Raise e) → process_job url w = job_failed url e w'.
Proof. intros H. rewrite process_job_unfold. unfold try_except. by rewrite H. Qed.

(** Whatever happens in the [try], the table ends as one UPDATE for the URL
    would leave it; queue and waiting time are not touched. *)
Lemma job_body_frame (url : pystr) (w : World) :
  ∃ st now em cc,
    db (job_body url w).1 = sql_update (db w) st now em cc url
    ∧ ((job_body url w).2 = Ok tt → st = py "completed")
    ∧ redis (job_body url w).1 = redis w
    ∧ waited (job_body url w).1 = waited w.
Proof.
  rewrite job_body_run. cbv zeta. rewrite update_status_omitted. cbn [fst].
  set (w1 := mkWorld _ _ _ _ _).
  assert (∃ st now em cc,
            db w1 = sql_update (db w) st now em cc url
            ∧ (∀ e, (w1, @Raise unit e).2 = Ok tt → st = py "completed")
            ∧ redis w1 = redis w ∧ waited w1 = waited w) as Hw1.
  { do 4 eexists. split; [done|]. split; [|done]. by intros e [=]. }
  destruct (process_url url) as [[chunks metadatas]|e].
  2:{ destruct Hw1 as (st & now & em & cc & ? & ? & ? & ?). exists st, now, em, cc. eauto. }
  destruct (stdout_write (extracted_text chunks url)) as [[]|e].
  2:{ destruct Hw1 as (st & now & em & cc & ? & ? & ? & ?). exists st, now, em, cc. eauto. }
  clear Hw1.
  pose proof (add_documents_frame chunks metadatas url w1) as (Hdb & Hredis & Hticks & Hwaited).
  destruct (add_documents chunks metadatas url w1) as [w2 res]. cbn [fst] in *.
  assert (∃ st now em cc,
            db w2 = sql_update (db w) st now em cc url
            ∧ (∀ e, (w2, @Raise unit e).2 = Ok tt → st = py "completed")
            ∧ redis w2 = redis w ∧ waited w2 = waited w) as Hw2.
  { do 4 eexists. split; [by rewrite Hdb|]. split; [by intros e [=]|].
    by rewrite Hredis, Hwaited. }
  destruct res as [[]|e].
  2:{ destruct Hw2 as (st & now & em & cc & ? & ? & ? & ?). exists st, now, em, cc. eauto. }
  destruct (stdout_write stored_text) as [[]|e].
  2:{ destruct Hw2 as (st & now & em & cc & ? & ? & ? & ?). exists st, now, em, cc. eauto. }
  rewrite update_status_run. destruct (sqlite_int _).
  - exists (py "completed"), (clock_reading (ticks w2)), None, (len chunks).
    cbn [fst snd db redis waited]. rewrite Hdb, Hredis, Hwaited. subst w1.
    cbn [db redis waited]. by rewrite sql_update_sql_update.
  - destruct Hw2 as (st & now & em & cc & ? & ? & ? & ?). exists st, now, em, cc.
    cbn [fst snd db redis waited]. split; [done|]. split; [by intros [=]|done].
Qed.

Lemma process_job_summary (url : pystr) (w : World) :
  ∃ st now em cc,
    terminal st
    ∧ db (process_job url w).1 = sql_update (db w) st now em cc url
    ∧ redis (process_job url w).1 = redis w
    ∧ waited (process_job url w).1 = waited w.
Proof.
  destruct (job_body_frame url w) as (st & now & em & cc & Hdb & Hst & Hredis & Hwaited).
  destruct (job_body url w) as [w' [[]|e]] eqn:Hbody; cbn [fst snd] in *.
  - rewrite (process_job_ok url w w' Hbody). exists st, now, em, cc.
    split; [left; by apply Hst|done].
  - rewrite (process_job_raise url w w' e Hbody), job_failed_run. cbn [fst db redis waited].
    exists (py "failed"), (clock_reading (ticks w')), (Some (str_exn e)), 0.
    split; [by right|]. by rewrite Hdb, sql_update_sql_update.
Qed.

(** A turn that finds a job runs the per-job [try] statement on it; should
    the handler of that statement raise, the outer handler sleeps. *)
Lemma worker_turn_job (url : pystr) (rest : list Job.t) (w : World) :
  reachable (redis w) = true →
  url_processing_queue (redis w) = Job.mk url :: rest →
  let job := process_job url (with_redis (mkRedis true rest) w) in
  (worker_turn w).2 = Ok tt
  ∧ db (worker_turn w).1 = db job.1
  ∧ redis (worker_turn w).1 = redis job.1
  ∧ collection (worker_turn w).1 = collection job.1
  ∧ ticks (worker_turn w).1 = ticks job.1.
Proof.
  intros Hr Hq job. subst job. unfold worker_turn, try_except, mbind, M_bind, bind.
  rewrite (dequeue_job _ _ _ Hr Hq). cbn [Job.url].
  by destruct (process_job url _) as [w' [[]|e]].
Qed.

(** The worker takes the job at the head of the queue; the job leaves the
    queue and nothing is put back.  If fetch, chunking, the vector-store
    insertion and the three progress messages succeed, the URL's record ends
    with status [completed], no error message and [chunks_count] the number
    of chunks.  If fetch or chunking raises ([process_url]) or the insertion
    raises ([add_documents]), the record ends with status [failed] and
    [error_message] the text of that exception.  The turn itself raises
    nothing. *)
Lemma worker_turn_outcome (url : pystr) (rest : list Job.t)
    (w : World) (r : UrlRecord.t) :
  reachable (redis w) = true →
  url_processing_queue (redis w) = Job.mk url :: rest →
  head (sql_select (db w) url) = Some r →
  let w' := (worker_turn w).1 in
  let now := clock_reading (S (ticks w)) in
  (worker_turn w).2 = Ok tt
  ∧ url_processing_queue (redis w') = rest
  ∧ (∀ chunks metadatas,
       process_url url = Ok (chunks, metadatas) →
       stdout_write (extracted_text chunks url) = Ok tt →
       (add_documents chunks metadatas url w).2 = Ok tt →
       stdout_write stored_text = Ok tt →
       sqlite_int (len chunks) = true →
       stdout_write (success_text url) = Ok tt →
       head (sql_select (db w') url) =
         Some (set_status (py "completed") now None (len chunks) r))
  ∧ (∀ e,
       process_url url = Raise e
       ∨ (∃ chunks metadatas,
            process_url url = Ok (chunks, metadatas)
            ∧ stdout_write (extracted_text chunks url) = Ok tt
            ∧ (add_documents chunks metadatas url w).2 = Raise e) →
       head (sql_select (db w') url) =
         Some (set_status (py "failed") now (Some (str_exn e)) 0 r)).
Proof.
  intros Hreach Hq Hr w' now. subst w' now.
  destruct (worker_turn_job url rest w Hreach Hq) as (Hok & Hdb & Hredis & _).
  rewrite Hok, Hdb, Hredis. clear Hok Hdb Hredis.
  set (w0 := with_redis (mkRedis true rest) w).
  destruct (process_job_summary url w0) as (_ & _ & _ & _ & _ & _ & -> & _).
  split; [done|]. split; [done|].
  assert (∀ st1 n1 e1 c1 st2 n2 e2 c2,
            head (sql_select
                    (sql_update (sql_update (db w) st1 n1 e1 c1 url) st2 n2 e2 c2 url) url)
            = Some (set_status st2 n2 e2 c2 r)) as Hhead.
  { intros. rewrite sql_update_sql_update, sql_select_update_same.
    destruct (sql_select (db w) url); [done|]. simpl in *. by injection Hr as ->. }
  pose proof (job_body_run url w0) as Hbody. cbv zeta in Hbody.
  rewrite update_status_omitted in Hbody. cbn [fst] in Hbody.
  set (w1 := mkWorld _ _ _ _ _) in Hbody.
  split.
  - intros chunks metadatas Hproc Hp1 Hadd Hp2 Hint Hp3.
    rewrite Hproc, Hp1 in Hbody.
    pose proof (add_documents_frame chunks metadatas url w1) as (Hdb & _ & Hticks & _).
    pose proof (add_documents_outcome chunks metadatas url w1 w eq_refl) as Hout.
    destruct (add_documents chunks metadatas url w1) as [w2 res]. cbn [fst snd] in *.
    rewrite Hout, Hadd, Hp2, update_status_run in Hbody. cbn [arg_or] in Hbody.
    rewrite Hint, Hp3 in Hbody.
    rewrite (process_job_ok _ _ _ Hbody). cbn [fst db].
    rewrite Hdb, Hticks. subst w1 w0. cbn [db ticks with_redis]. apply Hhead.
  - intros e [Hproc|(chunks & metadatas & Hproc & Hp1 & Hadd)].
    + rewrite Hproc in Hbody.
      rewrite (process_job_raise _ _ _ _ Hbody), job_failed_run. cbn [fst db].
      subst w1 w0. cbn [db ticks with_redis]. apply Hhead.
    + rewrite Hproc, Hp1 in Hbody.
      pose proof (add_documents_frame chunks metadatas url w1) as (Hdb & _ & Hticks & _).
      pose proof (add_documents_outcome chunks metadatas url w1 w eq_refl) as Hout.
      destruct (add_documents chunks metadatas url w1) as [w2 res]. cbn [fst snd] in *.
      rewrite Hout, Hadd in Hbody.
      rewrite (process_job_raise _ _ _ _ Hbody), job_failed_run. cbn [fst db].
      rewrite Hdb, Hticks. subst w1 w0. cbn [db ticks with_redis]. apply Hhead.
Qed.

(** C4. A job whose fetch, chunking and vector-store insertion all succeed
    does not end [completed] when the success message cannot be printed.
    The record is first updated to [completed] with the chunk count; then
    the [print] of the success message, inside the same [try], raises (a
    standard output that cannot encode U+2713), and the handler overwrites
    the record: it ends with status [failed], the text of that exception as
    [error_message] and a chunk count of 0, although the chunks are in the
    vector collection.  The job has left the queue and the turn raises
    nothing. *)
Theorem worker_turn_success_message_raises (url : pystr) (rest : list Job.t)
    (w : World) (r : UrlRecord.t) (chunks : list pystr)
    (metadatas : list Metadata.t) (e : exn) :
  reachable (redis w) = true →
  url_processing_queue (redis w) = Job.mk url :: rest →
  head (sql_select (db w) url) = Some r →
  process_url url = Ok (chunks, metadatas) →
  stdout_write (extracted_text chunks url) = Ok tt →
  (add_documents chunks metadatas url w).2 = Ok tt →
  stdout_write stored_text = Ok tt →
  sqlite_int (len chunks) = true →
  stdout_write (success_text url) = Raise e →
  let w' := (worker_turn w).1 in
  (worker_turn w).2 = Ok tt
  ∧ head (sql_select (db w') url) =
      Some (set_status (py "failed") (clock_reading (S (S (ticks w))))
                       (Some (str_exn e)) 0 r)
  ∧ collection w' = collection (add_documents chunks metadatas url w).1
  ∧ url_processing_queue (redis w') = rest.
Proof.
  intros Hreach Hq Hr Hproc Hp1 Hadd Hp2 Hint Hp3 w'. subst w'.
  destruct (worker_turn_job url rest w Hreach Hq) as (Hok & Hdb & Hredis & Hcoll & _).
  rewrite Hok, Hdb, Hredis, Hcoll. clear Hok Hdb Hredis Hcoll.
  set (w0 := with_redis (mkRedis true rest) w).
  pose proof (job_body_run url w0) as Hbody. cbv zeta in Hbody.
  rewrite update_status_omitted in Hbody. cbn [fst] in Hbody.
  set (w1 := mkWorld _ _ _ _ _) in Hbody.
  rewrite Hproc, Hp1 in Hbody.
  pose proof (add_documents_frame chunks metadatas url w1)
    as (Hdb & Hredis & Hticks & _).
  pose proof (add_documents_outcome chunks metadatas url w1 w eq_refl) as Hout.
  pose proof (add_documents_collection chunks metadatas url w1 w eq_refl) as Hcoll.
  destruct (add_documents chunks metadatas url w1) as [w2 res]. cbn [fst snd] in *.
  rewrite Hout, Hadd, Hp2, update_status_run in Hbody. cbn [arg_or] in Hbody.
  rewrite Hint, Hp3 in Hbody.
  rewrite (process_job_raise _ _ _ _ Hbody), job_failed_run.
  cbn [fst db redis collection ticks]. rewrite Hdb, Hredis, Hticks, Hcoll.
  subst w1 w0. cbn [db redis ticks with_redis url_processing_queue].
  split; [done|]. split; [|done].
  rewrite !sql_update_sql_update, sql_select_update_same.
  destruct (sql_select (db w) url); [done|]. simpl in *. by injection Hr as ->.
Qed.

(** ** The two invariants the front door and the worker maintain *)

Lemma world_inv_fresh (up : bool) (c : Collection) (n : nat) (z : Z) :
  world_inv (mkWorld init_db (mkRedis up []) c n z).
Proof.
  split; [apply init_db_wf|]. intros job Hjob. simpl in Hjob.
  by apply elem_of_nil in Hjob.
Qed.

Lemma add_url_urls (url : pystr) (w : World) :
  UrlRecord.url <$> rows (db (add_url url w).1) =
    if decide (url ∈ UrlRecord.url <$> rows (db w))
    then UrlRecord.url <$> rows (db w)
    else (UrlRecord.url <$> rows (db w)) ++ [url].
Proof.
  case_decide as Hin.
  - by rewrite add_url_existing.
  - rewrite add_url_fresh by done. cbn [fst db rows]. by rewrite fmap_app.
Qed.

Lemma add_url_frame (url : pystr) (w : World) :
  redis (add_url url w).1 = redis w
  ∧ (db_wf (db w) → db_wf (db (add_url url w).1))
  ∧ url ∈ UrlRecord.url <$> rows (db (add_url url w).1)
  ∧ (∀ u, u ∈ UrlRecord.url <$> rows (db w) →
          u ∈ UrlRecord.url <$> rows (db (add_url url w).1)).
Proof.
  unfold db_wf. rewrite add_url_urls. split.
  { destruct (decide (url ∈ UrlRecord.url <$> rows (db w))) as [Hin|Hnot].
    - by rewrite add_url_existing.
    - by rewrite add_url_fresh. }
  case_decide as Hin; [done|]. split; [|split].
  - intros Hwf. apply NoDup_app. split; [done|]. split.
    + intros u Hu [->|[]%elem_of_nil]%elem_of_cons. done.
    + apply NoDup_singleton.
  - apply elem_of_app. right. by apply list_elem_of_singleton.
  - intros u Hu. apply elem_of_app. by left.
Qed.

Lemma ingest_url_inv (url : pystr) (w : World) :
  world_inv w → world_inv (ingest_url url w).1.
Proof.
  intros [Hwf Hjobs]. destruct (reachable (redis w)) eqn:Hreach.
  - destruct (ingest_url_run url w Hreach) as (w1 & job_id & Hadd & ->).
    destruct (add_url_frame url w) as (Hredis & Hwf1 & Hin & Hmono).
    rewrite Hadd in Hredis, Hwf1, Hin, Hmono. simpl in *.
    split; [by apply Hwf1|].
    intros job. simpl. rewrite elem_of_app, list_elem_of_singleton.
    intros [Hjob| ->]; [|done]. by apply Hmono, Hjobs.
  - by rewrite ingest_url_unreachable.
Qed.

Lemma update_status_inv (url status : pystr) em cc (w : World) :
  world_inv w → world_inv (update_status url status em cc w).1.
Proof.
  intros [Hwf Hjobs]. rewrite update_status_run.
  destruct (sqlite_int (arg_or 0 cc)); [|done]. split.
  - by apply sql_update_wf.
  - intros job Hjob. cbn [fst db redis] in *. rewrite sql_update_urls. by apply Hjobs.
Qed.

(** With nothing queued the worker polls for a second and sleeps for one;
    with the server down the outer handler sleeps for five. *)
Lemma worker_turn_idle (w : World) :
  reachable (redis w) = true →
  url_processing_queue (redis w) = [] →
  worker_turn w =
    (mkWorld (db w) (redis w) (collection w) (ticks w) (waited w + 1 + 1), Ok tt).
Proof.
  intros Hr Hq. unfold worker_turn, try_except, mbind, M_bind, bind.
  by rewrite (dequeue_none w Hr Hq).
Qed.

Lemma dequeue_unreachable (w : World) :
  reachable (redis w) = false → dequeue w = (w, Raise connection_error).
Proof.
  intros Hr. unfold dequeue, blpop, mbind, M_bind, bind. by rewrite Hr.
Qed.

Lemma worker_turn_unreachable (w : World) :
  reachable (redis w) = false →
  worker_turn w =
    (mkWorld (db w) (redis w) (collection w) (ticks w) (waited w + 5), Ok tt).
Proof.
  intros Hr. unfold worker_turn, try_except, mbind, M_bind, bind.
  by rewrite (dequeue_unreachable w Hr).
Qed.

(** What a turn does to the table and the queue: a job found ends in a
    terminal status, by one UPDATE for its URL, and leaves the queue. *)
Lemma worker_turn_summary (w : World) :
  (worker_turn w).2 = Ok tt
  ∧ ((∃ url rest st now em cc,
        reachable (redis w) = true
        ∧ url_processing_queue (redis w) = Job.mk url :: rest
        ∧ terminal st
        ∧ db (worker_turn w).1 = sql_update (db w) st now em cc url
        ∧ redis (worker_turn w).1 = mkRedis true rest)
     ∨ ((reachable (redis w) = false ∨ url_processing_queue (redis w) = [])
        ∧ db (worker_turn w).1 = db w
        ∧ redis (worker_turn w).1 = redis w)).
Proof.
  destruct (reachable (redis w)) eqn:Hr.
  - destruct (url_processing_queue (redis w)) as [|[url] rest] eqn:Hq.
    + rewrite (worker_turn_idle w Hr Hq). split; [done|]. right. auto.
    + destruct (worker_turn_job url rest w Hr Hq) as (Hok & Hdb & Hredis & _).
      destruct (process_job_summary url (with_redis (mkRedis true rest) w))
        as (st & now & em & cc & Hst & Hdb' & Hredis' & _).
      split; [done|]. left. exists url, rest, st, now, em, cc.
      rewrite Hdb, Hredis, Hdb', Hredis'. done.
  - rewrite (worker_turn_unreachable w Hr). split; [done|]. right. auto.
Qed.

Lemma worker_turn_inv (w : World) : world_inv w → world_inv (worker_turn w).1.
Proof.
  intros [Hwf Hjobs].
  destruct (worker_turn_summary w)
    as [_ [(url & rest & st & now & em & cc & _ & Hq & _ & Hdb & Hredis)
          |(_ & Hdb & Hredis)]].
  - split.
    + rewrite Hdb. by apply sql_update_wf.
    + intros job. rewrite Hredis, Hdb, sql_update_urls. cbn [url_processing_queue].
      intros Hjob. apply Hjobs. rewrite Hq. by right.
  - split.
    + by rewrite Hdb.
    + intros job. rewrite Hredis, Hdb. apply Hjobs.
Qed.

(** So a job the worker dequeues always finds its record. *)
Lemma dequeued_job_has_record (url : pystr) (rest : list Job.t) (w : World) :
  world_inv w →
  url_processing_queue (redis w) = Job.mk url :: rest →
  ∃ r, head (sql_select (db w) url) = Some r.
Proof.
  intros [_ Hjobs] Hq.
  assert (url ∈ UrlRecord.url <$> rows (db w)) as Hin.
  { apply (Hjobs (Job.mk url)). rewrite Hq. by left. }
  destruct (sql_select (db w) url) as [|r l] eqn:Hsel; [|by exists r].
  by apply sql_select_nil in Hsel.
Qed.

(** ** C6 *)

(** C6. When the chat completion call raises, [generate_answer] returns the
    string "Error generating answer: " followed by the exception's text, and
    that string is the [answer] of [generate_answer_with_sources]. *)
Theorem generate_answer_fallback (query : pystr)
    (context_chunks : list RetrievedChunk.t) (e : exn) :
  chat_completions_create
    [(py "system", system_content);
     (py "user", prompt_of query (context_of context_chunks))] = Raise e →
  generate_answer query context_chunks =
    Some (py "Error generating answer: " ++ str_exn e)
  ∧ Answer.answer (generate_answer_with_sources query context_chunks) =
      Some (py "Error generating answer: " ++ str_exn e).
Proof.
  intros Hraise.
  assert (generate_answer query context_chunks =
          Some (py "Error generating answer: " ++ str_exn e)) as Hans.
  { unfold generate_answer. by rewrite Hraise. }
  split; [done|]. unfold generate_answer_with_sources. simpl. done.
Qed.

(** An empty [choices] list is caught by the same handler. *)
Lemma generate_answer_no_choice (query : pystr) (context_chunks : list RetrievedChunk.t) :
  chat_completions_create
    [(py "system", system_content);
     (py "user", prompt_of query (context_of context_chunks))] = Ok [] →
  generate_answer query context_chunks =
    Some (py "Error generating answer: " ++ py "list index out of range").
Proof. intros H. unfold generate_answer. by rewrite H. Qed.

(** ** C7 *)

Lemma list_set_NoDup (xs : list pystr) : NoDup (list_set xs).
Proof. unfold list_set. apply NoDup_elements. Qed.

Lemma elem_of_list_set (xs : list pystr) (x : pystr) : x ∈ list_set xs ↔ x ∈ xs.
Proof. unfold list_set. by rewrite elem_of_elements, elem_of_list_to_set. Qed.

Lemma length_list_set (xs : list pystr) :
  length (list_set xs) = size (list_to_set xs : gset pystr).
Proof. reflexivity. Qed.

(** C7. The [sources] of [generate_answer_with_sources] list each source URL
    of the chunks exactly once (in no particular order) and nothing else, and
    [num_sources] is the number of distinct source URLs; for chunks from
    URLs A, A, B with A and B different, [sources] is A and B in some order
    and [num_sources] is 2. *)
Theorem sources_are_distinct_urls (query : pystr)
    (context_chunks : list RetrievedChunk.t) :
  let urls := (λ chunk, Metadata.url (RetrievedChunk.metadata chunk)) <$> context_chunks in
  let response := generate_answer_with_sources query context_chunks in
  NoDup (Answer.sources response)
  ∧ (∀ u, u ∈ Answer.sources response ↔ u ∈ urls)
  ∧ Answer.num_sources response = Z.of_nat (size (list_to_set urls : gset pystr))
  ∧ (∀ A B, A ≠ B → urls = [A; A; B] →
       Answer.sources response ≡ₚ [A; B] ∧ Answer.num_sources response = 2).
Proof.
  intros urls response. subst response. unfold generate_answer_with_sources.
  cbn [Answer.sources Answer.num_sources]. fold urls.
  split; [apply list_set_NoDup|]. split; [apply elem_of_list_set|].
  split; [done|].
  intros A B Hne Hurls.
  assert (list_set urls ≡ₚ [A; B]) as Hperm.
  { apply NoDup_Permutation.
    - apply list_set_NoDup.
    - apply NoDup_cons. split; [by intros ->%list_elem_of_singleton|].
      apply NoDup_singleton.
    - intros u. rewrite elem_of_list_set, Hurls.
      rewrite !elem_of_cons, !elem_of_nil. split.
      + intros [->|[->|[->|[]]]]; auto.
      + intros [->|[->|[]]]; auto. }
  split; [done|]. unfold len. by rewrite Hperm.
Qed.

(** * Further properties *)

(** ** app/scraper.py: the clean-up keeps the words *)

Lemma split_nonspace_cons (c : N) (s : pystr) :
  isspace c = false → ∃ w ws, split (c :: s) = w :: ws.
Proof.
  intros Hc. destruct s as [|d s].
  - rewrite split_char_end by done. eauto.
  - destruct (isspace d) eqn:Hd.
    + rewrite split_char_space by done. eauto.
    + rewrite split_char_char by done. destruct (split (d :: s)); eauto.
Qed.

(** Whitespace between two strings separates their words. *)
Lemma split_app_space (a b : pystr) (sp : N) :
  isspace sp = true → split (a ++ sp :: b) = split a ++ split b.
Proof.
  intros Hsp. induction a as [|c a IH]; [by apply split_space|].
  destruct (isspace c) eqn:Hc.
  { rewrite <-app_comm_cons, !split_space by done. done. }
  destruct a as [|d a].
  { change ([c] ++ sp :: b) with (c :: sp :: b).
    rewrite split_char_space, split_char_end by done. done. }
  destruct (isspace d) eqn:Hd.
  - rewrite <-!app_comm_cons, !split_char_space by done.
    rewrite <-!app_comm_cons, !split_space in IH by done. by rewrite IH.
  - rewrite <-!app_comm_cons, !split_char_char by done.
    rewrite <-!app_comm_cons in IH. rewrite IH.
    destruct (split_nonspace_cons d a Hd) as (w & ws & ->). done.
Qed.

Lemma split_app_space_r (a : pystr) (sp : N) :
  isspace sp = true → split (a ++ [sp]) = split a.
Proof. intros Hsp. by rewrite split_app_space, app_nil_r. Qed.

Lemma split_app_spaces_r (a sps : pystr) :
  Forall (λ c, isspace c = true) sps → split (a ++ sps) = split a.
Proof.
  intros H. revert a. induction H as [|sp sps Hsp _ IH]; intros a.
  - by rewrite app_nil_r.
  - rewrite (assoc_L _ a [sp] sps : a ++ sp :: sps = (a ++ [sp]) ++ sps).
    by rewrite IH, split_app_space_r.
Qed.

Lemma lstrip_spec (s : pystr) :
  ∃ sps, Forall (λ c, isspace c = true) sps ∧ s = sps ++ lstrip s.
Proof.
  induction s as [|c s (sps & Hsps & IH)]; [by exists []|].
  simpl. destruct (isspace c) eqn:Hc.
  - exists (c :: sps). split; [by constructor|]. simpl. by f_equal.
  - by exists [].
Qed.

Lemma split_lstrip (s : pystr) : split (lstrip s) = split s.
Proof.
  induction s as [|c s IH]; [done|]. simpl lstrip.
  destruct (isspace c) eqn:Hc; [|done]. by rewrite split_space.
Qed.

Lemma split_strip (s : pystr) : split (strip s) = split s.
Proof.
  unfold strip. rewrite <-(split_lstrip s).
  destruct (lstrip_spec (reverse (lstrip s))) as (sps & Hsps & Hrev).
  apply (f_equal reverse) in Hrev. rewrite reverse_involutive, reverse_app in Hrev.
  rewrite Hrev at 2. rewrite split_app_spaces_r; [done|].
  by apply Forall_reverse.
Qed.

(** Putting a string in front of the first piece of a list of pieces. *)
Definition prepend_first (p : pystr) (pieces : list pystr) : list pystr :=
  match pieces with
  | x :: xs => (p ++ x) :: xs
  | [] => [p]
  end.

Definition words_of (pieces : list pystr) : list pystr := concat (split <$> pieces).

Lemma prepend_first_cons_first (p : pystr) (c : N) (pieces : list pystr) :
  prepend_first p (cons_first c pieces) = prepend_first (p ++ [c]) pieces.
Proof. destruct pieces; simpl; by rewrite <-?app_assoc. Qed.

Lemma words_of_prepend_nil (pieces : list pystr) :
  words_of (prepend_first [] pieces) = words_of pieces.
Proof. by destruct pieces. Qed.

Lemma is_linebreak_isspace (c : N) : is_linebreak c = true → isspace c = true.
Proof.
  unfold is_linebreak. intros H.
  rewrite !orb_true_iff, !andb_true_iff, !N.leb_le, !N.eqb_eq in H.
  assert ((c = 10 ∨ c = 11 ∨ c = 12 ∨ c = 13 ∨ c = 28 ∨ c = 29 ∨ c = 30
           ∨ c = 133 ∨ c = 8232 ∨ c = 8233)%N) as Hc by lia.
  clear H. repeat (destruct Hc as [->|Hc]; [reflexivity|]).
  subst. reflexivity.
Qed.

Lemma splitlines_words_aux (n : nat) (s p : pystr) :
  (length s ≤ n)%nat →
  words_of (prepend_first p (splitlines s)) = split (p ++ s).
Proof.
  revert s p. induction n as [|n IH]; intros s p Hn.
  { destruct s; [|simpl in Hn; lia]. unfold words_of. simpl.
    by rewrite !app_nil_r. }
  destruct s as [|c s]; [unfold words_of; simpl; by rewrite !app_nil_r|].
  simpl in Hn. simpl splitlines.
  destruct (is_linebreak c) eqn:Hc.
  - apply is_linebreak_isspace in Hc. rewrite split_app_space by done.
    unfold words_of. simpl. rewrite app_nil_r. f_equal.
    destruct s as [|d s]; [done|].
    destruct ((c =? 13)%N && (d =? 10)%N) eqn:Hcrlf.
    + apply andb_true_iff in Hcrlf as [_ Hd%N.eqb_eq]. subst d.
      rewrite split_space by done.
      pose proof (IH s [] ltac:(simpl in Hn; lia)) as Hs.
      by rewrite words_of_prepend_nil in Hs.
    + pose proof (IH (d :: s) [] ltac:(lia)) as Hs.
      by rewrite words_of_prepend_nil in Hs.
  - rewrite prepend_first_cons_first, IH by lia.
    by rewrite <-app_assoc.
Qed.

Lemma splitlines_words (s : pystr) : words_of (splitlines s) = split s.
Proof.
  pose proof (splitlines_words_aux (length s) s [] ltac:(done)) as Hs.
  by rewrite words_of_prepend_nil in Hs.
Qed.

Lemma split_double_space_cons (c d : N) (s : pystr) :
  split_double_space (c :: d :: s) =
    if ((c =? 32)%N && (d =? 32)%N)
    then [] :: split_double_space s
    else cons_first c (split_double_space (d :: s)).
Proof. reflexivity. Qed.

Lemma split_double_space_words_aux (n : nat) (s p : pystr) :
  (length s ≤ n)%nat →
  words_of (prepend_first p (split_double_space s)) = split (p ++ s).
Proof.
  revert s p. induction n as [|n IH]; intros s p Hn.
  { destruct s; [|simpl in Hn; lia]. unfold words_of. simpl.
    by rewrite !app_nil_r. }
  destruct s as [|c s]; [unfold words_of; simpl; by rewrite !app_nil_r|].
  simpl in Hn. destruct s as [|d s].
  { unfold words_of. simpl. by rewrite app_nil_r. }
  rewrite split_double_space_cons.
  destruct ((c =? 32)%N && (d =? 32)%N) eqn:Hss.
  - apply andb_true_iff in Hss as [->%N.eqb_eq ->%N.eqb_eq].
    rewrite split_app_space, split_space by done.
    unfold words_of. simpl. rewrite app_nil_r. f_equal.
    pose proof (IH s [] ltac:(simpl in Hn; lia)) as Hs.
    by rewrite words_of_prepend_nil in Hs.
  - rewrite prepend_first_cons_first, IH by lia.
    by rewrite <-app_assoc.
Qed.

Lemma split_double_space_words (s : pystr) : words_of (split_double_space s) = split s.
Proof.
  pose proof (split_double_space_words_aux (length s) s [] ltac:(done)) as Hs.
  by rewrite words_of_prepend_nil in Hs.
Qed.

Lemma split_join_words (pieces : list pystr) :
  split (join (py " ") pieces) = words_of pieces.
Proof.
  rewrite py_space. unfold words_of. induction pieces as [|x xs IH]; [done|].
  destruct xs as [|y ys].
  - simpl. by rewrite app_nil_r.
  - change (join [32%N] (x :: y :: ys)) with (x ++ 32%N :: join [32%N] (y :: ys)).
    rewrite split_app_space by done. rewrite IH. done.
Qed.

Lemma words_of_filter_nonempty (pieces : list pystr) :
  words_of (filter (λ chunk, chunk ≠ []) pieces) = words_of pieces.
Proof.
  unfold words_of. induction pieces as [|x xs IH]; [done|].
  rewrite filter_cons. case_decide as Hx.
  - rewrite !fmap_cons. cbn [concat]. f_equal. exact IH.
  - assert (x = []) as -> by (by destruct x). rewrite fmap_cons. exact IH.
Qed.

Lemma words_of_strip (pieces : list pystr) :
  words_of (strip <$> pieces) = words_of pieces.
Proof.
  unfold words_of. induction pieces as [|x xs IH]; [done|].
  rewrite !fmap_cons. cbn [concat]. by rewrite split_strip, IH.
Qed.

Lemma words_of_app (xs ys : list pystr) :
  words_of (xs ++ ys) = words_of xs ++ words_of ys.
Proof. unfold words_of. by rewrite fmap_app, concat_app. Qed.

Lemma clean_text_words (text : pystr) : split (clean_text text) = split text.
Proof.
  unfold clean_text. rewrite split_join_words, words_of_filter_nonempty.
  rewrite <-splitlines_words.
  induction (splitlines text) as [|line lines IH]; [done|].
  rewrite fmap_cons, bind_cons, words_of_app, IH.
  rewrite words_of_strip, split_double_space_words, split_strip.
  done.
Qed.

(** X1. The clean-up of [fetch_content] changes the layout of the extracted
    text but not its words: the cleaned text splits into exactly the words of
    the raw text, so chunking either gives the same chunks, whatever the
    parameters. *)
Theorem clean_text_preserves_words (text : pystr) (chunk_size overlap : Z) :
  split (clean_text text) = split text
  ∧ chunk_text (clean_text text) chunk_size overlap = chunk_text text chunk_size overlap.
Proof.
  split; [apply clean_text_words|].
  unfold chunk_text. by rewrite clean_text_words.
Qed.

(** ** app/scraper.py: more on [chunk_text] and [process_url] *)

Lemma join_nil_inv (sep : pystr) (ws : list pystr) :
  Forall wordlike ws → join sep ws = [] → ws = [].
Proof.
  intros Hws Hnil. destruct ws as [|w ws]; [done|].
  exfalso. by apply (join_nonempty sep (w :: ws)).
Qed.

Lemma py_slice_wordlike (words : list pystr) (lo hi : Z) :
  Forall wordlike words → Forall wordlike (py_slice words lo hi).
Proof. intros H. unfold py_slice. by apply Forall_take, Forall_drop. Qed.

Lemma foldl_chunk_step_Forall (P : pystr → Prop) (words : list pystr)
    (chunk_size : Z) (idxs : list Z) (acc : list pystr) :
  (∀ i, window words chunk_size i ≠ [] → P (window words chunk_size i)) →
  Forall P acc → Forall P (foldl (chunk_step words chunk_size) acc idxs).
Proof.
  intros HP. revert acc. induction idxs as [|i idxs IH]; intros acc Hacc; [done|].
  simpl. apply IH. unfold chunk_step. fold (window words chunk_size i).
  case_bool_decide as Hne; [|done].
  apply Forall_app. split; [done|]. constructor; [by apply HP|constructor].
Qed.

(** X2. Whatever the parameters, a call of [chunk_text] that returns has no
    empty chunk: every chunk holds at least one word, and its words are a
    run of consecutive words of the text. *)
Theorem chunk_text_chunks_have_words (text : pystr) (chunk_size overlap : Z)
    (chunks : list pystr) :
  chunk_text text chunk_size overlap = Ok chunks →
  Forall (λ c, c ≠ [] ∧ split c ≠ []
               ∧ ∃ i n : nat, split c = take n (drop i (split text))) chunks.
Proof.
  unfold chunk_text. destruct (py_range _ _ _) as [idxs|e]; [|done].
  intros [= <-]. apply foldl_chunk_step_Forall; [|constructor].
  intros i Hne. split; [done|].
  pose proof (split_wordlike text) as Hw.
  unfold window in *. rewrite split_join by by apply py_slice_wordlike.
  split.
  - intros Hnil. apply Hne. by rewrite Hnil.
  - unfold py_slice. eauto.
Qed.

Lemma range_length_ceil (n step : Z) :
  0 ≤ n → 0 < step → range_length 0 n step = (n + step - 1) `div` step.
Proof.
  intros Hn Hs. unfold range_length. rewrite decide_True by done.
  case_decide as Hpos.
  - replace (n + step - 1) with ((n - 0 - 1) + 1 * step) by lia.
    rewrite Z.div_add by lia. done.
  - assert (n = 0) as -> by lia. symmetry. apply Z.div_small. lia.
Qed.

(** X3. With a positive chunk size and an overlap below it, [chunk_text]
    returns exactly ceil(N / (chunk_size - overlap)) chunks for a text of N
    words. *)
Theorem chunk_text_count (text : pystr) (chunk_size overlap : Z) :
  0 < chunk_size → overlap < chunk_size →
  ∃ chunks,
    chunk_text text chunk_size overlap = Ok chunks
    ∧ len chunks =
        (len (split text) + (chunk_size - overlap) - 1) `div` (chunk_size - overlap).
Proof.
  intros Hcs Hov. eexists. split; [by apply chunk_text_windows|].
  unfold len at 1. rewrite length_fmap, length_seqZ.
  pose proof (len_nonneg (split text)) as Hn.
  rewrite <-range_length_ceil by lia.
  unfold range_length. repeat case_decide; try lia.
  assert (0 ≤ (len (split text) - 0 - 1) `div` (chunk_size - overlap))
    by (apply Z.div_pos; lia).
  lia.
Qed.

(** X4. With 0 <= overlap < chunk_size, successive chunks overlap as
    intended: what is left of a chunk's words after its first
    [chunk_size - overlap] words is exactly the first [overlap] words of the
    next chunk. *)
Theorem chunk_text_overlap_shared (text : pystr) (chunk_size overlap : Z)
    (chunks : list pystr) (k : nat) (c c' : pystr) :
  0 ≤ overlap → overlap < chunk_size →
  chunk_text text chunk_size overlap = Ok chunks →
  chunks !! k = Some c → chunks !! S k = Some c' →
  drop (Z.to_nat (chunk_size - overlap)) (split c) = take (Z.to_nat overlap) (split c').
Proof.
  intros Hov Hcs Hrun Hc Hc'.
  rewrite chunk_text_windows in Hrun by lia. injection Hrun as <-.
  apply lookup_windows in Hc as [_ ->]. apply lookup_windows in Hc' as [_ ->].
  pose proof (split_wordlike text) as Hw.
  rewrite !split_window; [|done|nia|lia|done|nia|lia].
  set (st := chunk_size - overlap).
  assert (Z.to_nat (Z.of_nat (S k) * st) = (Z.to_nat (Z.of_nat k * st) + Z.to_nat st)%nat)
    as -> by nia.
  generalize (Z.to_nat (Z.of_nat k * st)). intros K.
  assert (Z.to_nat chunk_size = (Z.to_nat st + Z.to_nat overlap)%nat) as ->
    by (unfold st; lia).
  generalize (Z.to_nat st) (Z.to_nat overlap). intros ST OV.
  apply list_eq. intros j.
  rewrite lookup_drop, !lookup_take, !lookup_drop.
  repeat case_decide; try lia; try done. f_equal. lia.
Qed.

(** X5. A text with at least one word and at most [chunk_size - overlap]
    words gives a single chunk: all its words, joined by single spaces. *)
Theorem chunk_text_short_text (text : pystr) (chunk_size overlap : Z) :
  0 ≤ overlap → overlap < chunk_size →
  split text ≠ [] → len (split text) ≤ chunk_size - overlap →
  chunk_text text chunk_size overlap = Ok [join (py " ") (split text)].
Proof.
  intros Hov Hcs Hne Hlen. rewrite chunk_text_windows by lia.
  assert (0 < len (split text)) as Hpos.
  { unfold len. destruct (split text); [done|]. simpl. lia. }
  assert (range_length 0 (len (split text)) (chunk_size - overlap) = 1) as ->.
  { unfold range_length. rewrite !decide_True by lia.
    rewrite Z.div_small by lia. done. }
  change (seqZ 0 1) with [0]. simpl. do 2 f_equal.
  unfold window. rewrite py_slice_window by lia. simpl.
  rewrite drop_0, take_ge; [done|]. unfold len in Hlen. lia.
Qed.

(** X6. When [process_url] returns, the chunks are those of [chunk_text]
    with the defaults on the fetched text, there is one metadata dict per
    chunk, and the dict at position [i] carries the URL, [chunk_index = i]
    and [total_chunks = len(chunks)]. *)
Theorem process_url_metadata (url : pystr) (chunks : list pystr)
    (metadatas : list Metadata.t) :
  process_url url = Ok (chunks, metadatas) →
  (∃ text, fetch_content url = Ok text ∧ chunk_text text 500 50 = Ok chunks)
  ∧ length metadatas = length chunks
  ∧ (∀ i : nat, (i < length chunks)%nat →
       metadatas !! i = Some (Metadata.mk url (Z.of_nat i) (len chunks))).
Proof.
  unfold process_url.
  destruct (fetch_content url) as [text|e]; [|done]. cbn [rbind].
  unfold chunk_size_default, overlap_default.
  destruct (chunk_text text 500 50) as [chunks'|e] eqn:Hchunks; [|done]. cbn [rbind].
  intros [= -> <-]. split; [by exists text|]. split.
  - rewrite length_fmap, length_seqZ. unfold len. lia.
  - intros i Hi. rewrite list_lookup_fmap, lookup_seqZ_lt by (unfold len; lia).
    done.
Qed.

(** ** app/database.py: creation, idempotence, last write wins *)

Lemma max_rowid_ge (t : MetadataDB) (r : UrlRecord.t) :
  r ∈ rows t → UrlRecord.id r ≤ max_rowid t.
Proof.
  unfold max_rowid. induction (rows t) as [|r0 l IH]; [by intros ?%elem_of_nil|].
  rewrite elem_of_cons, fmap_cons. cbn [foldr]. intros [->|Hin]; [lia|].
  specialize (IH Hin). lia.
Qed.

Lemma sql_select_snoc (l : list UrlRecord.t) (n n' : Z) (r : UrlRecord.t) :
  sql_select (mkDB (l ++ [r]) n) (UrlRecord.url r) =
    sql_select (mkDB l n') (UrlRecord.url r) ++ [r].
Proof.
  unfold sql_select. simpl. rewrite filter_app. f_equal.
  by rewrite filter_cons_True.
Qed.

(** X7. [add_url] on a URL without a record, the URL being text SQLite can
    store, returns a new id, larger than every id in the table; the table
    gains one row for the URL, after the others, with status pending, both
    timestamps the clock reading, no error message and a chunk count of 0;
    and [get_url_status] then returns that row. The queue is not touched. *)
Theorem add_url_creates_record (url : pystr) (w : World) :
  sqlite_text url = true →
  sql_select (db w) url = [] →
  let w' := (add_url url w).1 in
  let now := clock_reading (ticks w) in
  ∃ id,
    (add_url url w).2 = Ok (Some id)
    ∧ (∀ r0, r0 ∈ rows (db w) → UrlRecord.id r0 < id)
    ∧ rows (db w') = rows (db w) ++ [UrlRecord.mk id url (py "pending") now now None 0]
    ∧ (get_url_status url w').2 =
        Ok (Some (UrlRecord.mk id url (py "pending") now now None 0))
    ∧ redis w' = redis w.
Proof.
  intros _ Hnone w' now. subst w' now.
  assert (url ∉ UrlRecord.url <$> rows (db w)) as Hnot by by apply sql_select_nil.
  rewrite add_url_fresh by done. cbn [fst snd db redis].
  eexists. split; [done|]. split; [|split; [done|split; [|done]]].
  - intros r0 Hr0. apply max_rowid_ge in Hr0. lia.
  - unfold get_url_status, db_query, mbind, M_bind, bind, ret. cbn [fst snd db].
    set (r := UrlRecord.mk _ _ _ _ _ _ _).
    change url with (UrlRecord.url r) at 1.
    rewrite (sql_select_snoc _ _ (sqlite_sequence (db w))).
    subst r. cbn [UrlRecord.url].
    replace (mkDB (rows (db w)) (sqlite_sequence (db w))) with (db w)
      by by destruct (db w).
    by rewrite Hnone.
Qed.

(** X8. [add_url] is idempotent: called twice in a row for the same URL
    (text SQLite can store), from any state, it returns the same id both
    times, and the second call leaves the table as the first left it. *)
Theorem add_url_idempotent (url : pystr) (w : World) :
  sqlite_text url = true →
  let first := add_url url w in
  let second := add_url url first.1 in
  (∃ id, first.2 = Ok (Some id))
  ∧ second.2 = first.2
  ∧ db second.1 = db first.1.
Proof.
  intros _ first second. subst first second.
  destruct (decide (url ∈ UrlRecord.url <$> rows (db w))) as [Hin|Hnot].
  - rewrite (add_url_existing url w) by done. cbn [fst snd].
    rewrite add_url_existing by done. cbn [fst snd db].
    split; [|done].
    destruct (sql_select (db w) url) as [|r l] eqn:Hsel.
    + by apply sql_select_nil in Hsel.
    + exists (UrlRecord.id r). unfold sql_select_id. by rewrite Hsel.
  - rewrite (add_url_fresh url w) by done. cbn [fst snd].
    split; [eauto|].
    rewrite add_url_existing.
    2:{ cbn [db rows]. rewrite fmap_app. apply elem_of_app. right.
        by apply list_elem_of_singleton. }
    cbn [fst snd db]. split; [|done]. do 2 f_equal. unfold sql_select_id.
    set (r := UrlRecord.mk _ _ _ _ _ _ _).
    change url with (UrlRecord.url r).
    rewrite (sql_select_snoc _ _ (sqlite_sequence (db w))).
    subst r. cbn [UrlRecord.url].
    replace (mkDB (rows (db w)) (sqlite_sequence (db w))) with (db w)
      by by destruct (db w).
    apply sql_select_nil in Hnot. by rewrite Hnot.
Qed.

(** X9. For updates of one URL the last write wins: after two calls of
    [update_status], the second with arguments SQLite can store, the table
    is what the second call alone would have made of it at that moment; the
    first leaves no trace, whether it returned or raised. *)
Theorem update_status_last_write_wins (url s1 s2 : pystr)
    (e1 e2 : arg (option pystr)) (c1 c2 : arg Z) (w : World) :
  update_status_text url s2 e2 = true →
  sqlite_int (arg_or 0 c2) = true →
  db (update_status url s2 e2 c2 (update_status url s1 e1 c1 w).1).1 =
    db (update_status url s2 e2 c2
          (mkWorld (db w) (redis w) (collection w) (S (ticks w)) (waited w))).1.
Proof.
  intros _ Hint. rewrite (update_status_run url s1).
  destruct (sqlite_int (arg_or 0 c1)); rewrite !update_status_run, Hint;
    cbn [fst db ticks]; [|done].
  apply sql_update_sql_update.
Qed.

(** ** app/queue.py: first in, first out *)

Lemma enqueue_all_run (urls : list pystr) (w : World) :
  reachable (redis w) = true →
  enqueue_all urls w =
    (mkWorld (db w) (mkRedis true (url_processing_queue (redis w) ++ (Job.mk <$> urls)))
             (collection w) (ticks w) (waited w),
     Ok tt).
Proof.
  revert w. induction urls as [|url urls IH]; intros w Hr.
  - simpl. rewrite app_nil_r. unfold ret. destruct w as [? [? ?] ? ? ?].
    simpl in *. by subst.
  - cbn [enqueue_all]. unfold mbind, M_bind, bind.
    rewrite enqueue_run by done. rewrite IH by done.
    cbn [with_redis db redis collection ticks waited url_processing_queue].
    rewrite <-app_assoc. done.
Qed.

Lemma dequeue_times_run (jobs rest : list Job.t) (w : World) :
  reachable (redis w) = true →
  url_processing_queue (redis w) = jobs ++ rest →
  dequeue_times (length jobs) w =
    (mkWorld (db w) (mkRedis true rest) (collection w) (ticks w) (waited w),
     Ok (Some <$> jobs)).
Proof.
  revert w. induction jobs as [|job jobs IH]; intros w Hr Hq.
  - simpl. unfold ret. destruct w as [? [? ?] ? ? ?]. simpl in *. by subst.
  - cbn [length dequeue_times]. unfold mbind, M_bind, bind.
    rewrite (dequeue_job job (jobs ++ rest)) by done.
    rewrite IH by done. done.
Qed.

(** X10. The queue is first in, first out: with the server reachable,
    after enqueuing a list of URLs behind the jobs already waiting, that many
    dequeues return the waiting jobs and then one job per URL, in the order
    of submission, none of them [None]; the queue is then empty and nothing
    else has changed. *)
Theorem queue_fifo (urls : list pystr) (w : World) :
  reachable (redis w) = true →
  let waiting := url_processing_queue (redis w) in
  let after := enqueue_all urls w in
  let out := dequeue_times (length waiting + length urls) after.1 in
  after.2 = Ok tt
  ∧ url_processing_queue (redis after.1) = waiting ++ (Job.mk <$> urls)
  ∧ out.2 = Ok (Some <$> (waiting ++ (Job.mk <$> urls)))
  ∧ out.1 = mkWorld (db w) (mkRedis true []) (collection w) (ticks w) (waited w).
Proof.
  intros Hr waiting after out. subst waiting after out.
  rewrite enqueue_all_run by done. cbn [fst snd redis url_processing_queue].
  split; [done|]. split; [done|].
  rewrite <-(length_fmap Job.mk urls), <-length_app.
  rewrite (dequeue_times_run _ []); [done|done|].
  cbn [redis url_processing_queue]. by rewrite app_nil_r.
Qed.

(** ** app/main.py: the remaining handlers *)

(** X11. [GET /queue-info] answers only if Redis answers its first
    request, the one for the length of the queue: with the server down at
    that moment the handler raises the connection error instead of
    answering [redis_connected = False].  When it answers, [queue_length]
    is the number of queued jobs, and [redis_connected] tells whether the
    server still answered the second request, the ping: it is [False] only
    when the connection was lost between the two.  The handler itself
    modifies nothing. *)
Theorem queue_info_two_requests (still_up : bool) (w : World) :
  (reachable (redis w) = false →
     main_queue_info still_up w = (w, Raise connection_error))
  ∧ (reachable (redis w) = true →
       main_queue_info still_up w =
         (with_redis (mkRedis still_up (url_processing_queue (redis w))) w,
          Ok (QueueInfo.mk (len (url_processing_queue (redis w))) still_up))).
Proof.
  unfold main_queue_info, get_queue_length, network, mbind, M_bind, bind.
  destruct (reachable (redis w)) eqn:Hr.
  - split; [done|]. intros _. rewrite is_connected_run. done.
  - split; [done|]. done.
Qed.

(** X12. [GET /status/{url}] answers 404 "URL not found" exactly when the
    table has no row for the URL; otherwise it returns the first row for
    that URL. It never modifies anything. *)
Theorem main_get_url_status_spec (url : pystr) (w : World) :
  (main_get_url_status url w).1 = w
  ∧ (sql_select (db w) url = [] ↔
       (main_get_url_status url w).2 = Raise (HTTPException 404 (py "URL not found")))
  ∧ (∀ r, (main_get_url_status url w).2 = Ok r ↔ head (sql_select (db w) url) = Some r)
  ∧ (∀ r, (main_get_url_status url w).2 = Ok r →
       UrlRecord.url r = url ∧ r ∈ rows (db w)).
Proof.
  unfold main_get_url_status, get_url_status, db_query, mbind, M_bind, bind, ret, raise.
  cbn [fst snd].
  destruct (sql_select (db w) url) as [|r l] eqn:Hsel; cbn [head fst snd].
  - split; [done|]. split; [done|]. split; [|done].
    intros r. split; intros [=].
  - split; [done|]. split; [by split|].
    assert (r ∈ sql_select (db w) url) as Hin by (rewrite Hsel; by left).
    unfold sql_select in Hin. apply list_elem_of_filter in Hin as [Hurl Hin].
    split.
    + intros r'. split; intros [= ->]; done.
    + by intros r' [= <-].
Qed.

(** X13. When the queue service does not answer, [POST /ingest-url] is
    refused with 503 before anything is done: no record is created, no job
    is queued, the clock is not even read. *)
Theorem ingest_url_unavailable (url : pystr) (w : World) :
  reachable (redis w) = false →
  ingest_url url w =
    (w, Raise (HTTPException 503 (py "Queue service is not available"))).
Proof.
  intros Hr. unfold ingest_url, mbind, M_bind, bind.
  rewrite is_connected_run, Hr. done.
Qed.

(** X14. A first submission: for a URL without a record (queue reachable),
    [POST /ingest-url] answers with [status = "pending"] and as [job_id] a
    new id larger than every id in the table; the table gains exactly the
    pending record with that id, and the queue gains exactly one job for the
    URL, at its tail. The vector collection is not touched. *)
Theorem ingest_url_first_submission (url : pystr) (w : World) :
  reachable (redis w) = true →
  sql_select (db w) url = [] →
  let now := clock_reading (ticks w) in
  ∃ id w',
    ingest_url url w =
      (w', Ok (IngestURLResponse.mk (py "URL submitted for processing") url
                                    (py "pending") (Some id)))
    ∧ (∀ r0, r0 ∈ rows (db w) → UrlRecord.id r0 < id)
    ∧ rows (db w') = rows (db w) ++ [UrlRecord.mk id url (py "pending") now now None 0]
    ∧ url_processing_queue (redis w') = url_processing_queue (redis w) ++ [Job.mk url]
    ∧ collection w' = collection w.
Proof.
  intros Hr Hnone now. subst now.
  assert (url ∉ UrlRecord.url <$> rows (db w)) as Hnot by by apply sql_select_nil.
  destruct (ingest_url_run url w Hr) as (w1 & job_id & Hadd & Hrun).
  rewrite add_url_fresh in Hadd by done. injection Hadd as <- <-.
  do 2 eexists. split; [exact Hrun|].
  cbn [with_redis db redis collection rows url_processing_queue].
  split; [|done].
  intros r0 Hr0. apply max_rowid_ge in Hr0. lia.
Qed.

(** ** app/vector_store.py *)

Lemma py_inj (s1 s2 : string) : py s1 = py s2 → s1 = s2.
Proof.
  unfold py. intros H.
  rewrite <-(string_of_list_ascii_of_string s1), <-(string_of_list_ascii_of_string s2).
  f_equal. revert H.
  generalize (list_ascii_of_string s1) (list_ascii_of_string s2).
  intros l1. induction l1 as [|a l1 IH]; intros [|b l2]; try done.
  rewrite !fmap_cons. intros [= Hab Hl]. f_equal; [|by apply IH].
  by rewrite <-(ascii_N_embedding a), <-(ascii_N_embedding b), Hab.
Qed.

Lemma str_of_nat_inj (i j : nat) : str_of_nat i = str_of_nat j → i = j.
Proof. unfold str_of_nat. intros H%py_inj. by apply (inj pretty). Qed.

Lemma rmapM_is_ok {A B} (f : A → result B) (l : list A) :
  (∀ a, a ∈ l → ∃ b, f a = Ok b) → ∃ bs, rmapM f l = Ok bs.
Proof.
  induction l as [|a l IH]; intros Hf; [by exists []|].
  destruct (Hf a) as [b Hb]; [by left|].
  destruct IH as [bs Hbs]; [intros a' Ha'; apply Hf; by right|].
  exists (b :: bs). simpl. by rewrite Hb, Hbs.
Qed.

Lemma rmapM_lookup {A B} (f : A → result B) (l : list A) (bs : list B) :
  rmapM f l = Ok bs →
  length bs = length l
  ∧ (∀ (i : nat) a, l !! i = Some a → ∃ b, f a = Ok b ∧ bs !! i = Some b).
Proof.
  revert bs. induction l as [|a l IH]; intros bs; simpl.
  - intros [= <-]. split; [done|]. intros i a Hi. done.
  - destruct (f a) as [b|e] eqn:Hb; [|done]. cbn [rbind].
    destruct (rmapM f l) as [bs'|e] eqn:Hbs; [|done]. cbn [rbind].
    intros [= <-]. destruct (IH bs' eq_refl) as [Hlen Hlook].
    split; [simpl; by rewrite Hlen|].
    intros [|i] a' Hi; simpl in *.
    + injection Hi as <-. eauto.
    + by apply Hlook.
Qed.

(** X15. [add_documents] asks for the embeddings first and, if that
    raises, raises the same exception with the collection untouched.
    Otherwise it hands the collection the chunks and metadata it was given
    together with one id per chunk, [url + "_" + str(i)] for the chunk at
    position [i], and no two of these ids are equal. *)
Theorem add_documents_ids (chunks : list pystr) (metadatas : list Metadata.t)
    (url : pystr) (w : World) :
  (∀ e, encode chunks = Raise e → add_documents chunks metadatas url w = (w, Raise e))
  ∧ (∀ embeddings, encode chunks = Ok embeddings →
       ∃ ids,
         length ids = length chunks
         ∧ NoDup ids
         ∧ (∀ i : nat, (i < length chunks)%nat →
              ids !! i = Some (url ++ py "_" ++ str_of_nat i))
         ∧ add_documents chunks metadatas url w =
             (with_collection
                (collection_add (collection w) embeddings chunks metadatas ids).1 w,
              (collection_add (collection w) embeddings chunks metadatas ids).2)).
Proof.
  unfold add_documents, collection_add_call, lift, mbind, M_bind, bind.
  split.
  - intros e ->. done.
  - intros embeddings ->.
    exists ((λ i, url ++ py "_" ++ str_of_nat i) <$> seq 0 (length chunks)).
    split; [|split; [|split]].
    4:{ by destruct (collection_add _ _ _ _ _). }
    + by rewrite length_fmap, length_seq.
    + apply NoDup_fmap_2_strong; [|apply NoDup_seq].
      intros i j _ _ Heq. apply app_inv_head in Heq. apply app_inv_head in Heq.
      by apply str_of_nat_inj.
    + intros i Hi. by rewrite list_lookup_fmap, lookup_seq_lt.
Qed.

Lemma search_run (query : pystr) (top_k : option Z) (w : World) :
  search query top_k w =
    (w, rbind (encode [query]) (λ query_embedding,
        rbind (collection_query (collection w) query_embedding top_k) format_results)).
Proof.
  unfold search, collection_query_call, lift, mbind, M_bind, bind.
  destruct (encode [query]) as [emb|e]; [|done]. cbn [rbind].
  by destruct (collection_query (collection w) emb top_k).
Qed.

(** X16. [search] on a well-formed answer of the collection: when the first
    lists under metadatas and distances are at least as long as the first
    list of documents, [search] returns one result per document, in the
    collection's order, each pairing the document with the metadata and the
    distance at the same position. It does not modify anything. *)
Theorem search_pairs_by_position (query : pystr) (top_k : option Z) (w : World)
    (query_embedding : list Embedding) (results : QueryResult.t Float)
    (documents0 : list pystr) (metadatas0 : list Metadata.t) (distances0 : list Float)
    dtl mtl xtl :
  encode [query] = Ok query_embedding →
  collection_query (collection w) query_embedding top_k = Ok results →
  QueryResult.documents results = Some (documents0 :: dtl) →
  QueryResult.metadatas results = Some (metadatas0 :: mtl) →
  QueryResult.distances results = Passed (Some (distances0 :: xtl)) →
  (length documents0 ≤ length metadatas0)%nat →
  (length documents0 ≤ length distances0)%nat →
  ∃ hits,
    search query top_k w = (w, Ok hits)
    ∧ length hits = length documents0
    ∧ (∀ (i : nat) d, documents0 !! i = Some d →
         ∃ m x, metadatas0 !! i = Some m ∧ distances0 !! i = Some x
                ∧ hits !! i = Some (SearchHit.mk d m (Some x))).
Proof.
  intros Henc Hquery Hdocs Hmetas Hdists Hlm Hld.
  rewrite search_run, Henc. cbn [rbind]. rewrite Hquery. cbn [rbind].
  unfold format_results. rewrite Hdocs.
  assert (∀ i d, documents0 !! i = Some d →
            ∃ m x, metadatas0 !! i = Some m ∧ distances0 !! i = Some x
                   ∧ format_result results i = Ok (SearchHit.mk d m (Some x))) as Hfmt.
  { intros i d Hd.
    assert (i < length documents0)%nat as Hlt by by eapply lookup_lt_Some.
    destruct (lookup_lt_is_Some_2 metadatas0 i ltac:(lia)) as [m Hm].
    destruct (lookup_lt_is_Some_2 distances0 i ltac:(lia)) as [x Hx].
    exists m, x. split; [done|]. split; [done|].
    unfold format_result, subscript, index.
    rewrite Hdocs, Hmetas, Hdists. cbn [lookup list_lookup rbind].
    rewrite Hd, Hm, Hx. done. }
  destruct (rmapM_is_ok (format_result results) (seq 0 (length documents0)))
    as [hits Hhits].
  { intros i [_ Hi]%elem_of_seq.
    destruct (lookup_lt_is_Some_2 documents0 i ltac:(lia)) as [d Hd].
    destruct (Hfmt i d Hd) as (m & x & _ & _ & ->). eauto. }
  rewrite Hhits. exists hits. split; [done|].
  destruct (rmapM_lookup _ _ _ Hhits) as [Hlen Hlook].
  split; [by rewrite Hlen, length_seq|].
  intros i d Hd.
  assert (i < length documents0)%nat as Hlt by by eapply lookup_lt_Some.
  destruct (Hfmt i d Hd) as (m & x & Hm & Hx & Hfi).
  exists m, x. split; [done|]. split; [done|].
  destruct (Hlook i i) as (b & Hb & ->); [by apply lookup_seq_lt|].
  congruence.
Qed.

(** X17. [search] on an answer without documents: when the value under
    documents is [None], an empty list, or a list whose first entry is empty,
    [search] returns the empty list and raises nothing, whatever is
    (or is not) under metadatas and distances. *)
Theorem search_no_documents (query : pystr) (top_k : option Z) (w : World)
    (query_embedding : list Embedding) (results : QueryResult.t Float) :
  encode [query] = Ok query_embedding →
  collection_query (collection w) query_embedding top_k = Ok results →
  (QueryResult.documents results = None
   ∨ QueryResult.documents results = Some []
   ∨ ∃ dtl, QueryResult.documents results = Some ([] :: dtl)) →
  search query top_k w = (w, Ok []).
Proof.
  intros Henc Hquery Hdocs.
  rewrite search_run, Henc. cbn [rbind]. rewrite Hquery. cbn [rbind].
  unfold format_results.
  destruct Hdocs as [->|[->|[dtl ->]]]; done.
Qed.

(** ** app/llm.py: what the prompt holds, how many sources *)

Lemma occurs_in_refl (x : pystr) : occurs_in x x.
Proof. exists [], []. by rewrite app_nil_r. Qed.

Lemma occurs_in_app_l (x a s : pystr) : occurs_in x s → occurs_in x (a ++ s).
Proof. intros (pre & post & ->). exists (a ++ pre), post. by rewrite <-app_assoc. Qed.

Lemma occurs_in_app_r (x s b : pystr) : occurs_in x s → occurs_in x (s ++ b).
Proof. intros (pre & post & ->). exists pre, (post ++ b). by rewrite <-!app_assoc. Qed.

Lemma occurs_in_join (sep x : pystr) (ws : list pystr) :
  x ∈ ws → occurs_in x (join sep ws).
Proof.
  induction ws as [|w ws IH]; [by intros ?%elem_of_nil|].
  rewrite elem_of_cons. intros [->|Hin].
  - destruct ws as [|w' ws]; [apply occurs_in_refl|].
    change (join sep (w :: w' :: ws)) with (w ++ sep ++ join sep (w' :: ws)).
    apply occurs_in_app_r, occurs_in_refl.
  - destruct ws as [|w' ws]; [by apply elem_of_nil in Hin|].
    change (join sep (w :: w' :: ws)) with (w ++ sep ++ join sep (w' :: ws)).
    by apply occurs_in_app_l, occurs_in_app_l, IH.
Qed.

(** X18. The prompt [generate_answer] sends holds the question and, for
    every retrieved chunk, the block "Source i (from url):" followed by a
    line break and the chunk's content, with [i] the chunk's position
    counted from 1: no chunk is dropped or cut. When the endpoint answers
    with at least one choice, the first choice's content is returned as
    it is. *)
Theorem prompt_holds_every_chunk (query : pystr) (context_chunks : list RetrievedChunk.t) :
  let prompt := prompt_of query (context_of context_chunks) in
  occurs_in query prompt
  ∧ (∀ (i : nat) chunk, context_chunks !! i = Some chunk →
       occurs_in (py "Source " ++ str_of_nat (i + 1) ++ py " (from "
                  ++ Metadata.url (RetrievedChunk.metadata chunk) ++ py "):" ++ nl
                  ++ RetrievedChunk.content chunk) prompt)
  ∧ (∀ answer others,
       chat_completions_create [(py "system", system_content); (py "user", prompt)]
         = Ok (answer :: others) →
       generate_answer query context_chunks = answer).
Proof.
  intros prompt. subst prompt. split; [|split].
  - unfold prompt_of.
    do 11 apply occurs_in_app_l. apply occurs_in_app_r, occurs_in_refl.
  - intros i chunk Hi. unfold prompt_of.
    do 7 apply occurs_in_app_l. apply occurs_in_app_r.
    unfold context_of. apply occurs_in_join.
    apply list_elem_of_lookup. exists i. by rewrite list_lookup_imap, Hi.
  - intros answer others Hchat. unfold generate_answer. by rewrite Hchat.
Qed.

Lemma list_set_length_le (xs : list pystr) : (length (list_set xs) ≤ length xs)%nat.
Proof.
  apply submseteq_length, NoDup_submseteq; [apply list_set_NoDup|].
  intros x. by rewrite elem_of_list_set.
Qed.

Lemma list_set_nil_iff (xs : list pystr) : list_set xs = [] ↔ xs = [].
Proof.
  split.
  - intros Hnil. destruct xs as [|x xs]; [done|].
    assert (x ∈ list_set (x :: xs)) as Hin by (apply elem_of_list_set; by left).
    rewrite Hnil in Hin. by apply elem_of_nil in Hin.
  - intros ->. unfold list_set. simpl. apply elements_empty.
Qed.

(** X19. [num_sources] is the length of [sources]; it is at most the number
    of chunks, and it is 0 exactly when there are no chunks. *)
Theorem num_sources_bounds (query : pystr) (context_chunks : list RetrievedChunk.t) :
  let response := generate_answer_with_sources query context_chunks in
  Answer.num_sources response = len (Answer.sources response)
  ∧ 0 ≤ Answer.num_sources response ≤ len context_chunks
  ∧ (Answer.num_sources response = 0 ↔ context_chunks = []).
Proof.
  intros response. subst response. unfold generate_answer_with_sources.
  cbn [Answer.sources Answer.num_sources].
  set (urls := (λ chunk, Metadata.url (RetrievedChunk.metadata chunk)) <$> context_chunks).
  pose proof (list_set_length_le urls) as Hle.
  assert (length urls = length context_chunks) as Hlen by apply length_fmap.
  split; [done|]. split; [unfold len; lia|].
  unfold len. split.
  - intros Hz. assert (list_set urls = []) as Hnil by (apply nil_length_inv; lia).
    apply (proj1 (list_set_nil_iff _)) in Hnil. subst urls.
    by apply fmap_nil_inv in Hnil.
  - intros ->. subst urls. cbn [fmap list_fmap].
    by rewrite (proj2 (list_set_nil_iff [])).
Qed.

(** ** app/main.py: [POST /query] *)

Lemma main_query_run (request : QueryRequest.t) (w : World) :
  main_query request w =
    (w,
     match (search (QueryRequest.query request) (QueryRequest.top_k request) w).2 with
     | Raise e0 =>
         Raise (match exn_cls e0 with
                | HTTPExceptionClass _ => e0
                | _ => HTTPException 500 (py "Query failed: " ++ str_exn e0)
                end)
     | Ok [] =>
         Raise (HTTPException 404
                  (py "No relevant documents found. Please ingest some URLs first."))
     | Ok (hit :: hits) =>
         let response :=
           generate_answer_with_sources (QueryRequest.query request)
                                        (as_chunk <$> hit :: hits) in
         match Answer.answer response with
         | Some a =>
             Ok (QueryResponse.mk (QueryRequest.query request) a
                                  (Answer.sources response) (Answer.num_sources response))
         | None =>
             Raise (HTTPException 500 (py "Query failed: " ++ validation_error_text))
         end
     end).
Proof.
  unfold main_query, try_except, mbind, M_bind, bind.
  rewrite search_run. cbn [fst snd].
  destruct (rbind (encode _) _) as [[|hit hits]|e0].
  - done.
  - unfold lift, make_QueryResponse.
    by destruct (Answer.answer _).
  - unfold raise. by destruct (exn_cls e0).
Qed.

(** X20. When retrieval finds nothing, [POST /query] answers 404 "No
    relevant documents found. Please ingest some URLs first."; no answer is
    generated and nothing is modified. *)
Theorem main_query_empty_retrieval (request : QueryRequest.t) (w : World) :
  (search (QueryRequest.query request) (QueryRequest.top_k request) w).2 = Ok [] →
  main_query request w =
    (w, Raise (HTTPException 404
                 (py "No relevant documents found. Please ingest some URLs first."))).
Proof. intros Hsearch. by rewrite main_query_run, Hsearch. Qed.

(** X21. A failing generation does not fail the request: when retrieval
    returns results and the chat completion call raises, [POST /query]
    answers 200 with the text "Error generating answer: ..." as the answer,
    and with the sources of the retrieved results. *)
Theorem main_query_generation_failure (request : QueryRequest.t) (w : World)
    (hits : list (SearchHit.t Float)) (e : exn) :
  (search (QueryRequest.query request) (QueryRequest.top_k request) w).2 = Ok hits →
  hits ≠ [] →
  chat_completions_create
    [(py "system", system_content);
     (py "user", prompt_of (QueryRequest.query request)
                           (context_of (as_chunk <$> hits)))] = Raise e →
  let sources :=
    list_set ((λ hit, Metadata.url (SearchHit.metadata hit)) <$> hits) in
  main_query request w =
    (w, Ok (QueryResponse.mk (QueryRequest.query request)
                             (py "Error generating answer: " ++ str_exn e)
                             sources (len sources))).
Proof.
  intros Hsearch Hne Hchat sources. subst sources.
  rewrite main_query_run, Hsearch. destruct hits as [|hit hits]; [done|].
  cbv zeta. unfold generate_answer_with_sources, generate_answer.
  rewrite Hchat. cbn [Answer.answer Answer.sources Answer.num_sources].
  by rewrite <-list_fmap_compose.
Qed.

(** X22. Whatever goes wrong, [POST /query] raises an [HTTPException] and
    nothing else, and modifies nothing. An exception of retrieval that is
    not itself an [HTTPException] becomes a 500 with detail "Query failed: "
    followed by its text; so does the validation error of a response whose
    answer is [None]. *)
Theorem main_query_raises_only_http (request : QueryRequest.t) (w : World) :
  (main_query request w).1 = w
  ∧ (∀ e, (main_query request w).2 = Raise e →
       ∃ status_code, exn_cls e = HTTPExceptionClass status_code)
  ∧ (∀ e0,
       (search (QueryRequest.query request) (QueryRequest.top_k request) w).2 = Raise e0 →
       (∀ status_code, exn_cls e0 ≠ HTTPExceptionClass status_code) →
       (main_query request w).2 =
         Raise (HTTPException 500 (py "Query failed: " ++ str_exn e0)))
  ∧ (∀ hits,
       (search (QueryRequest.query request) (QueryRequest.top_k request) w).2 = Ok hits →
       hits ≠ [] →
       generate_answer (QueryRequest.query request) (as_chunk <$> hits) = None →
       (main_query request w).2 =
         Raise (HTTPException 500 (py "Query failed: " ++ validation_error_text))).
Proof.
  rewrite main_query_run. cbn [fst snd]. split; [done|]. split; [|split].
  - destruct (search _ _ w).2 as [[|hit hits]|e0].
    + intros e [= <-]. by eexists.
    + cbv zeta. destruct (Answer.answer _); [done|]. intros e [= <-]. by eexists.
    + intros e [= <-]. destruct (exn_cls e0) eqn:Hcls; by eexists.
  - intros e0 -> Hcls. destruct (exn_cls e0) eqn:He; try done.
    by destruct (Hcls status_code).
  - intros hits -> Hne Hnone. destruct hits as [|hit hits]; [done|].
    cbv zeta. unfold generate_answer_with_sources. cbn [Answer.answer].
    by rewrite Hnone.
Qed.

(** ** worker.py: what a turn does to the table and the queue *)

Lemma sql_update_fields {A} (f : UrlRecord.t → A) (t : MetadataDB)
    status now em cc (url : pystr) :
  (∀ r, f (set_status status now em cc r) = f r) →
  f <$> rows (sql_update t status now em cc url) = f <$> rows t.
Proof.
  intros Hf. unfold sql_update. cbn [rows]. rewrite <-list_fmap_compose.
  apply list_fmap_ext. intros i r _. simpl. case_decide; [apply Hf|done].
Qed.



Lemma main_get_url_status_run (url : pystr) (w : World) :
  (main_get_url_status url w).1 = w
  ∧ (main_get_url_status url w).2 =
      match head (sql_select (db w) url) with
      | Some r => Ok r
      | None => Raise (HTTPException 404 (py "URL not found"))
      end.
Proof.
  unfold main_get_url_status, get_url_status, db_query, mbind, M_bind, bind, ret, raise.
  cbn [fst snd]. by destruct (head (sql_select (db w) url)).
Qed.

(** ** The whole system: invariants, draining the queue, one full run *)

Lemma max_rowid_nonneg (t : MetadataDB) : 0 ≤ max_rowid t.
Proof.
  unfold max_rowid. induction (rows t) as [|r l IH]; [done|].
  rewrite fmap_cons. cbn [foldr]. lia.
Qed.

Lemma add_url_ids_wf (url : pystr) (w : World) :
  db_ids_wf (db w) → db_ids_wf (db (add_url url w).1).
Proof.
  intros [Hnd Hbound].
  destruct (decide (url ∈ UrlRecord.url <$> rows (db w))) as [Hin|Hnot].
  { by rewrite add_url_existing. }
  rewrite add_url_fresh by done. cbn [fst db]. unfold db_ids_wf. cbn [rows sqlite_sequence].
  pose proof (max_rowid_nonneg (db w)) as Hmax.
  split.
  - rewrite fmap_app. apply NoDup_app. split; [done|]. split; [|apply NoDup_singleton].
    intros i Hi [->|[]%elem_of_nil]%elem_of_cons.
    apply list_elem_of_fmap in Hi as (r0 & Heq & Hr0).
    apply max_rowid_ge in Hr0. cbn in Heq. lia.
  - apply Forall_app. split.
    + eapply Forall_impl; [exact Hbound|]. intros r0 ?. simpl in *. lia.
    + constructor; [|constructor]. cbn. lia.
Qed.

Lemma sql_update_ids_wf (t : MetadataDB) status now em cc (url : pystr) :
  db_ids_wf t → db_ids_wf (sql_update t status now em cc url).
Proof.
  intros [Hnd Hbound]. split.
  - by rewrite sql_update_fields.
  - unfold sql_update. cbn [rows sqlite_sequence].
    apply Forall_fmap. eapply Forall_impl; [exact Hbound|].
    intros r0 ?. simpl. by case_decide.
Qed.

Lemma step_inv (w w' : World) :
  step w w' →
  world_inv w ∧ db_ids_wf (db w) → world_inv w' ∧ db_ids_wf (db w').
Proof.
  intros Hstep [Hinv Hids]. destruct Hstep as [url w|w|up w].
  - split; [by apply ingest_url_inv|].
    destruct (reachable (redis w)) eqn:Hr.
    + destruct (ingest_url_run url w Hr) as (w1 & job_id & Hadd & ->).
      cbn [fst with_redis db].
      replace w1 with (add_url url w).1 by by rewrite Hadd.
      by apply add_url_ids_wf.
    + by rewrite ingest_url_unreachable.
  - split; [by apply worker_turn_inv|].
    destruct (worker_turn_summary w)
      as [_ [(url & rest & st & now & em & cc & _ & _ & _ & -> & _)|(_ & -> & _)]];
      [|done].
    by apply sql_update_ids_wf.
  - split; [|done]. destruct Hinv as [Hwf Hjobs]. split; [done|].
    intros job Hjob. by apply Hjobs.
Qed.

(** X25. In every state that submissions, worker turns and Redis outages
    can produce from a fresh installation, in any order: no two records share
    a URL, no two records share an id, every id is positive and at most the
    AUTOINCREMENT counter, and every queued job names a URL that has a
    record. *)
Theorem reachable_world_invariant (w : World) :
  reachable_world w →
  db_wf (db w) ∧ db_ids_wf (db w) ∧ jobs_have_records w.
Proof.
  intros Hreach.
  assert (world_inv w ∧ db_ids_wf (db w)) as [[Hwf Hjobs] Hids]; [|done].
  induction Hreach as [up c n z|w w' _ IH Hstep].
  - split; [apply world_inv_fresh|]. split; [apply NoDup_nil_2|constructor].
  - by apply (step_inv w w').
Qed.





(** X27. One full run: a URL without a record is submitted to an empty,
    reachable queue and the worker takes one turn. If fetch, chunking and
    the vector-store insertion succeed and the worker's progress messages
    can be printed, [GET /status/{url}] then returns the record with the id
    that the submission answered, status completed, the number of chunks, no
    error message, [created_at] the clock reading at submission and
    [updated_at] the reading at completion; and the queue is empty again. *)
Theorem submit_then_process (url : pystr) (w : World)
    (chunks : list pystr) (metadatas : list Metadata.t) :
  reachable (redis w) = true →
  url_processing_queue (redis w) = [] →
  sql_select (db w) url = [] →
  process_url url = Ok (chunks, metadatas) →
  (add_documents chunks metadatas url w).2 = Ok tt →
  sqlite_int (len chunks) = true →
  stdout_write (extracted_text chunks url) = Ok tt →
  stdout_write stored_text = Ok tt →
  stdout_write (success_text url) = Ok tt →
  let w1 := (ingest_url url w).1 in
  let w2 := (worker_turn w1).1 in
  ∃ id,
    (ingest_url url w).2 =
      Ok (IngestURLResponse.mk (py "URL submitted for processing") url
                               (py "pending") (Some id))
    ∧ (main_get_url_status url w2).2 =
        Ok (UrlRecord.mk id url (py "completed") (clock_reading (ticks w))
                         (clock_reading (S (S (ticks w)))) None (len chunks))
    ∧ url_processing_queue (redis w2) = [].
Proof.
  intros Hr Hq Hnone Hproc Hadd Hint Hp1 Hp2 Hp3 w1 w2. subst w1 w2.
  assert (url ∉ UrlRecord.url <$> rows (db w)) as Hnot by by apply sql_select_nil.
  destruct (ingest_url_run url w Hr) as (w1 & job_id & Hadd1 & ->).
  rewrite add_url_fresh in Hadd1 by done. injection Hadd1 as <- <-.
  rewrite Hq. cbn [fst snd app].
  set (w1 := with_redis _ _).
  set (rec := UrlRecord.mk (Z.max (sqlite_sequence (db w)) (max_rowid (db w)) + 1) url
                (py "pending") (clock_reading (ticks w)) (clock_reading (ticks w)) None 0).
  assert (head (sql_select (db w1) url) = Some rec) as Hrec.
  { subst w1. cbn [with_redis db].
    change url with (UrlRecord.url rec) at 2.
    rewrite (sql_select_snoc _ _ (sqlite_sequence (db w))).
    subst rec. cbn [UrlRecord.url].
    replace (mkDB (rows (db w)) (sqlite_sequence (db w))) with (db w)
      by by destruct (db w).
    by rewrite Hnone. }
  destruct (worker_turn_outcome url [] w1 rec eq_refl eq_refl Hrec)
    as (_ & Hqueue & Hcompleted & _).
  eexists. split; [done|]. split; [|exact Hqueue].
  destruct (main_get_url_status_run url (worker_turn w1).1) as [_ ->].
  rewrite (Hcompleted chunks metadatas); try done.
  by rewrite <-(add_documents_outcome chunks metadatas url w w1 eq_refl).
Qed.

End AiRA.

Arguments mkWorld {Collection} db redis collection ticks waited.
Arguments db {Collection} w.
Arguments redis {Collection} w.
Arguments collection {Collection} w.
Arguments ticks {Collection} w.
Arguments waited {Collection} w.

(** * Concrete runs

    Stand-ins for the collaborators: a clock, a web with two pages, an
    embedding model, a collection that records the ids it is given, a
    standard output with the UTF-8 encoding and one with the ASCII encoding,
    and a chat endpoint that is rate limited. *)

Definition demo_clock (n : nat) : pystr := py "2024-05-01T12:00:0" ++ str_of_nat n.

Definition demo_url : pystr := py "https://example.com/a".
Definition demo_page : pystr := concat (replicate 1200 (py "lorem " ++ nl)).
Definition demo_text : pystr := join (py " ") (replicate 1200 (py "lorem")).

Definition small_url : pystr := py "https://example.com/b".
Definition small_page : pystr := py "  hello  wide" ++ nl ++ nl ++ py "web ".

Definition demo_soup_get_text (url : pystr) : result pystr :=
  if decide (url = demo_url) then Ok demo_page
  else if decide (url = small_url) then Ok small_page
  else Raise (Exn (OtherError (py "HTTPError")) (py "404 Client Error: Not Found")).

Definition demo_encode (chunks : list pystr) : result (list unit) :=
  Ok (replicate (length chunks) tt).

Definition demo_collection_add (c : list pystr) (embeddings : list unit)
    (documents : list pystr) (metadatas : list Metadata.t) (ids : list pystr)
    : list pystr * result unit :=
  (c ++ ids, Ok tt).

(** A standard output with the UTF-8 encoding takes every message. *)
Definition utf8_stdout (text : pystr) : result unit := Ok tt.

(** A standard output with the ASCII encoding: the text of the
    [UnicodeEncodeError] names the first run of characters outside ASCII. *)
Definition hex_digit (d : N) : N := (if d <? 10 then 48 + d else 87 + d)%N.

Fixpoint hex (digits : nat) (c : N) : pystr :=
  match digits with
  | O => []
  | S n => hex n (c / 16)%N ++ [hex_digit (c mod 16)%N]
  end.

Definition escape (c : N) : pystr :=
  if (c <? 256)%N then py "\x" ++ hex 2 c
  else if (c <? 65536)%N then py "\u" ++ hex 4 c
  else py "\U" ++ hex 8 c.

Fixpoint run_outside_ascii (text : pystr) : nat :=
  match text with
  | c :: rest => if (c <? 128)%N then O else S (run_outside_ascii rest)
  | [] => O
  end.

Fixpoint ascii_encode (text : pystr) (position : nat) : result unit :=
  match text with
  | [] => Ok tt
  | c :: rest =>
      if (c <? 128)%N then ascii_encode rest (S position)
      else
        Raise (Exn (OtherError (py "UnicodeEncodeError"))
                 (match run_outside_ascii rest with
                  | O => py "'ascii' codec can't encode character '" ++ escape c
                         ++ py "' in position " ++ str_of_nat position
                  | S n => py "'ascii' codec can't encode characters in position "
                           ++ str_of_nat position ++ py "-"
                           ++ str_of_nat (position + S n)
                  end ++ py ": ordinal not in range(128)"))
  end.

Definition ascii_stdout (text : pystr) : result unit := ascii_encode text 0.

Definition demo_chat (messages : list (pystr * pystr)) : result (list (option pystr)) :=
  Raise (Exn (OtherError (py "RateLimitError")) (py "rate limit exceeded")).

(** A fresh installation with the Redis server up. *)
Definition world0 : World (list pystr) := mkWorld init_db (mkRedis true []) [] 0 0.

(** The same after [POST /ingest-url] for [small_url]. *)
Definition world1 : World (list pystr) := (ingest_url _ demo_clock small_url world0).1.

(** The record [add_url] created for [small_url]. *)
Definition small_record : UrlRecord.t :=
  UrlRecord.mk 1 small_url (py "pending") (demo_clock 0) (demo_clock 0) None 0.

Example chunk_text_small :
  chunk_text (py "a bb  ccc d e") 3 1 = Ok [py "a bb ccc"; py "ccc d e"; py "e"].
Proof. vm_compute. reflexivity. Qed.

Example chunk_text_empty : chunk_text [] 500 50 = Ok [] ∧ chunk_text (py "  ") 500 50 = Ok [].
Proof. split; vm_compute; reflexivity. Qed.

Example world1_state :
  rows (db world1) = [small_record]
  ∧ url_processing_queue (redis world1) = [Job.mk small_url].
Proof. split; vm_compute; reflexivity. Qed.

(** C1, as stated, fails.  In [world1] the URL already has its record and
    one job is queued for it.  The second submission is answered with the id
    of that record and the table still holds one record for the URL, but the
    queue now holds two jobs for it: a second job was enqueued. *)
Lemma ingest_url_twice_enqueues_twice :
  let second := ingest_url _ demo_clock small_url world1 in
  head (sql_select (db world1) small_url) = Some small_record
  ∧ jobs_for (redis world1) small_url = 1%nat
  ∧ second.2 = Ok (IngestURLResponse.mk (py "URL submitted for processing")
                                        small_url (py "pending") (Some 1))
  ∧ records_for (db second.1) small_url = 1%nat
  ∧ jobs_for (redis second.1) small_url = 2%nat
  ∧ jobs_for (redis second.1) small_url ≠ jobs_for (redis world1) small_url.
Proof. vm_compute. repeat split. intros [=]. Qed.

Lemma ingest_url_resubmission_witness :
  ∃ w',
    ingest_url _ demo_clock small_url world1 =
      (w', Ok (IngestURLResponse.mk (py "URL submitted for processing") small_url
                                    (py "pending") (Some 1)))
    ∧ db w' = db world1
    ∧ records_for (db w') small_url = 1%nat
    ∧ url_processing_queue (redis w') = [Job.mk small_url; Job.mk small_url]
    ∧ jobs_for (redis w') small_url = 2%nat.
Proof.
  apply (ingest_url_resubmission _ demo_clock small_url world1 small_record).
  - vm_compute. repeat constructor; intros H; inversion H.
  - reflexivity.
  - vm_compute. reflexivity.
Defined.

Lemma process_url_1200_words_witness :
  ∃ c0 c1 c2 metadatas,
    process_url demo_soup_get_text demo_url = Ok ([c0; c1; c2], metadatas)
    ∧ metadatas = [Metadata.mk demo_url 0 3; Metadata.mk demo_url 1 3;
                   Metadata.mk demo_url 2 3]
    ∧ length metadatas = length [c0; c1; c2]
    ∧ split c0 = take 500 (split demo_text)
    ∧ split c1 = take 500 (drop 450 (split demo_text))
    ∧ split c2 = drop 900 (split demo_text).
Proof.
  apply (process_url_1200_words demo_soup_get_text demo_url demo_text).
  - reflexivity.
  - vm_compute. reflexivity.
Defined.

(** C5, as stated, fails.  [small_url] has its record in [world1], with
    status pending.  A call of [update_status] for it with the status
    completed and a chunk count of 2^63 raises [OverflowError], and the
    record is what it was: its status is not the new one. *)
Lemma update_status_overflow_overwrites_nothing :
  let call := update_status _ demo_clock small_url (py "completed") Omitted
                            (Passed (2 ^ 63)) world1 in
  head (sql_select (db world1) small_url) = Some small_record
  ∧ call.2 = Raise overflow_error
  ∧ head (sql_select (db call.1) small_url) = Some small_record
  ∧ UrlRecord.status small_record ≠ py "completed"
  ∧ UrlRecord.chunks_count small_record ≠ 2 ^ 63.
Proof. vm_compute. repeat split; intros [=]. Qed.

Lemma update_status_overwrites_four_fields_witness :
  let w' := (update_status _ demo_clock small_url (py "failed")
                           (Passed (Some (py "boom"))) Omitted world1).1 in
  head (sql_select (db w') small_url) =
    Some (UrlRecord.mk 1 small_url (py "failed") (demo_clock 0) (demo_clock 1)
                       (Some (py "boom")) 0).
Proof.
  destruct (update_status_overwrites_four_fields _ demo_clock small_url (py "failed")
              (Passed (Some (py "boom"))) Omitted world1 small_record)
    as [Hstored _].
  - vm_compute. reflexivity.
  - vm_compute. reflexivity.
  - destruct Hstored as (_ & Hrecord & _).
    + vm_compute. reflexivity.
    + exact Hrecord.
Defined.

(** C10, as stated, fails.  [demo_url] has no record in [world1].  A call
    of [update_status] for it with a chunk count of 2^63 does not return
    normally: it raises [OverflowError]. *)
Lemma update_status_unknown_url_overflow :
  let call := update_status _ demo_clock demo_url (py "completed") Omitted
                            (Passed (2 ^ 63)) world1 in
  sql_select (db world1) demo_url = []
  ∧ call.2 = Raise overflow_error
  ∧ call.2 ≠ Ok tt.
Proof. vm_compute. repeat split. intros [=]. Qed.

Lemma update_status_unknown_url_witness :
  (update_status _ demo_clock demo_url (py "processing") Omitted Omitted world1).2 = Ok tt
  ∧ db (update_status _ demo_clock demo_url (py "processing") Omitted Omitted world1).1
    = db world1.
Proof.
  apply (update_status_unknown_url _ demo_clock demo_url (py "processing")
           Omitted Omitted world1).
  - vm_compute. reflexivity.
  - vm_compute. reflexivity.
Defined.

Lemma dequeue_empty_witness :
  dequeue _ world0 = (mkWorld init_db (mkRedis true []) [] 0 1, Ok None).
Proof.
  apply (dequeue_empty _ world0); reflexivity.
Defined.

(** The job for [small_url] on a standard output with the ASCII encoding:
    the page is fetched, chunked and stored, and the record ends failed. *)
Lemma worker_turn_success_message_raises_witness :
  let w' := (worker_turn _ _ demo_clock demo_soup_get_text demo_encode
                         demo_collection_add ascii_stdout world1).1 in
  head (sql_select (db w') small_url) =
    Some (UrlRecord.mk 1 small_url (py "failed") (demo_clock 0) (demo_clock 3)
            (Some (py "'ascii' codec can't encode character '\u2713' in position 0: ordinal not in range(128)"))
            0)
  ∧ collection w' = [py "https://example.com/b_0"].
Proof.
  destruct (worker_turn_success_message_raises _ _ demo_clock demo_soup_get_text
              demo_encode demo_collection_add ascii_stdout small_url [] world1
              small_record [py "hello wide web"] [Metadata.mk small_url 0 1]
              (Exn (OtherError (py "UnicodeEncodeError"))
                   (py "'ascii' codec can't encode character '\u2713' in position 0: ordinal not in range(128)")))
    as (_ & Hrecord & Hcollection & _).
  - reflexivity.
  - vm_compute. reflexivity.
  - vm_compute. reflexivity.
  - vm_compute. reflexivity.
  - vm_compute. reflexivity.
  - vm_compute. reflexivity.
  - vm_compute. reflexivity.
  - vm_compute. reflexivity.
  - vm_compute. reflexivity.
  - split; [exact Hrecord|exact Hcollection].
Defined.

(** The same turn on a UTF-8 standard output ends completed. *)
Example worker_turn_utf8_completed :
  let w' := (worker_turn _ _ demo_clock demo_soup_get_text demo_encode
                         demo_collection_add utf8_stdout world1).1 in
  head (sql_select (db w') small_url) =
    Some (UrlRecord.mk 1 small_url (py "completed") (demo_clock 0) (demo_clock 2) None 1).
Proof. vm_compute. reflexivity. Qed.

Lemma generate_answer_fallback_witness :
  generate_answer demo_chat (py "what is on this page?")
    [RetrievedChunk.mk (py "hello wide web") (Metadata.mk small_url 0 1)]
  = Some (py "Error generating answer: rate limit exceeded").
Proof.
  apply (generate_answer_fallback demo_chat (py "what is on this page?")
           [RetrievedChunk.mk (py "hello wide web") (Metadata.mk small_url 0 1)]
           (Exn (OtherError (py "RateLimitError")) (py "rate limit exceeded"))).
  reflexivity.
Defined.

(** The Python primitives on small inputs. *)

Example split_mixed_whitespace :
  split (py "  a" ++ [9%N] ++ py "bc" ++ nl ++ py " d ") = [py "a"; py "bc"; py "d"].
Proof. vm_compute. reflexivity. Qed.

Example join_two : join (py " ") [py "a"; py "bc"] = py "a bc".
Proof. reflexivity. Qed.

Example py_range_examples :
  py_range 0 10 3 = Ok [0; 3; 6; 9]
  ∧ py_range 0 10 (-1) = Ok []
  ∧ py_range 10 0 (-3) = Ok [10; 7; 4; 1]
  ∧ py_range 0 1200 450 = Ok [0; 450; 900].
Proof. repeat split; vm_compute; reflexivity. Qed.

Example py_slice_examples :
  py_slice [1; 2; 3; 4; 5] 1 3 = [2; 3]
  ∧ py_slice [1; 2; 3; 4; 5] 3 8 = [4; 5]
  ∧ py_slice [1; 2; 3; 4; 5] (-2) 10 = [4; 5]
  ∧ py_slice [1; 2; 3; 4; 5] 0 (-1) = [1; 2; 3; 4]
  ∧ py_slice [1; 2; 3; 4; 5] 3 1 = [].
Proof. repeat split; vm_compute; reflexivity. Qed.

Example str_of_nat_12 : str_of_nat 12 = py "12".
Proof. vm_compute. reflexivity. Qed.

Example context_of_two :
  context_of [RetrievedChunk.mk (py "x y") (Metadata.mk demo_url 0 2);
              RetrievedChunk.mk (py "z") (Metadata.mk small_url 0 1)]
  = py "Source 1 (from https://example.com/a):" ++ nl ++ py "x y" ++ nl ++ nl
    ++ py "Source 2 (from https://example.com/b):" ++ nl ++ py "z".
Proof. vm_compute. reflexivity. Qed.

(** Sources for chunks from [demo_url], [demo_url], [small_url]. *)
Example sources_of_three :
  let response :=
    generate_answer_with_sources demo_chat (py "q")
      [RetrievedChunk.mk (py "x") (Metadata.mk demo_url 0 2);
       RetrievedChunk.mk (py "y") (Metadata.mk demo_url 1 2);
       RetrievedChunk.mk (py "z") (Metadata.mk small_url 0 1)] in
  Answer.sources response ≡ₚ [demo_url; small_url]
  ∧ Answer.num_sources response = 2.
Proof.
  vm_compute. split; [|reflexivity].
  first [ reflexivity | apply perm_swap ].
Qed.

Example splitlines_examples :
  splitlines (py "a" ++ nl ++ nl ++ py "b" ++ nl) = [py "a"; []; py "b"]
  ∧ splitlines (py "a" ++ [13%N; 10%N] ++ py "b") = [py "a"; py "b"]
  ∧ splitlines [] = []
  ∧ splitlines nl = [[]].
Proof. repeat split. Qed.

Example split_double_space_examples :
  split_double_space (py "a  b") = [py "a"; py "b"]
  ∧ split_double_space (py "a   b") = [py "a"; py " b"]
  ∧ split_double_space (py "a    b") = [py "a"; []; py "b"]
  ∧ split_double_space [] = [[]].
Proof. repeat split. Qed.

Example strip_example : strip (py "  a b " ++ nl) = py "a b".
Proof. reflexivity. Qed.

Example clean_text_small : clean_text small_page = py "hello wide web".
Proof. reflexivity. Qed.

(** * Concrete runs of the further properties

    More stand-ins: a page that cannot be fetched, a server that is down, a
    collection that answers every query with the same two documents once
    something is indexed, and the text of a validation error. *)


Definition world_down : World (list pystr) := mkWorld init_db (mkRedis false []) [] 0 0.

Definition world_indexed : World (list pystr) :=
  mkWorld init_db (mkRedis true []) [py "https://example.com/b_0"] 0 0.



Definition demo_results : QueryResult.t nat :=
  QueryResult.mk (Some [[py "hello wide web"; py "lorem"]])
                 (Some [[Metadata.mk small_url 0 1; Metadata.mk demo_url 0 3]])
                 (Passed (Some [[1%nat; 2%nat]])).

Definition empty_results : QueryResult.t nat :=
  QueryResult.mk (Some [[]]) (Some [[]]) (Passed (Some [[]])).

Definition demo_collection_query (c : list pystr) (query_embeddings : list unit)
    (n_results : option Z) : result (QueryResult.t nat) :=
  match c with
  | [] => Ok empty_results
  | _ :: _ => Ok demo_results
  end.

Definition demo_validation_text : pystr := py "1 validation error for QueryResponse".

Definition demo_request : QueryRequest.t :=
  QueryRequest.mk (py "what is on this page?") (Some 5).

Lemma chunk_text_chunks_have_words_witness :
  Forall (λ c, c ≠ [] ∧ split c ≠ []
               ∧ ∃ i n : nat, split c = take n (drop i (split (py "a bb  ccc d e"))))
         [py "a bb ccc"; py "ccc d e"; py "e"].
Proof.
  apply (chunk_text_chunks_have_words (py "a bb  ccc d e") 3 1).
  vm_compute. reflexivity.
Defined.

Lemma chunk_text_count_witness :
  ∃ chunks,
    chunk_text demo_text 500 50 = Ok chunks
    ∧ len chunks = (len (split demo_text) + (500 - 50) - 1) `div` (500 - 50).
Proof. apply (chunk_text_count demo_text 500 50); lia. Defined.

Lemma chunk_text_overlap_shared_witness :
  drop (Z.to_nat (3 - 1)) (split (py "a b c")) = take (Z.to_nat 1) (split (py "c d e")).
Proof.
  apply (chunk_text_overlap_shared (py "a b c d e") 3 1
           [py "a b c"; py "c d e"; py "e"] 0).
  - lia.
  - lia.
  - vm_compute. reflexivity.
  - reflexivity.
  - reflexivity.
Defined.

Lemma chunk_text_short_text_witness :
  chunk_text (py " hello  wide web ") 500 50 =
    Ok [join (py " ") (split (py " hello  wide web "))].
Proof.
  apply (chunk_text_short_text (py " hello  wide web ") 500 50).
  - lia.
  - lia.
  - vm_compute. discriminate.
  - vm_compute. discriminate.
Defined.

Lemma process_url_metadata_witness :
  (∃ text, fetch_content demo_soup_get_text small_url = Ok text
           ∧ chunk_text text 500 50 = Ok [py "hello wide web"])
  ∧ length [Metadata.mk small_url 0 1] = length [py "hello wide web"]
  ∧ (∀ i : nat, (i < length [py "hello wide web"])%nat →
       [Metadata.mk small_url 0 1] !! i =
         Some (Metadata.mk small_url (Z.of_nat i) (len [py "hello wide web"]))).
Proof.
  apply (process_url_metadata demo_soup_get_text small_url).
  vm_compute. reflexivity.
Defined.

Lemma add_url_creates_record_witness :
  (add_url _ demo_clock small_url world0).2 = Ok (Some 1)
  ∧ rows (db (add_url _ demo_clock small_url world0).1) = [small_record].
Proof.
  destruct (add_url_creates_record _ demo_clock small_url world0)
    as (id & Hid & _ & Hrows & _).
  - vm_compute. reflexivity.
  - reflexivity.
  - split; [reflexivity|]. vm_compute. reflexivity.
Defined.

Lemma add_url_idempotent_witness :
  (add_url _ demo_clock small_url (add_url _ demo_clock small_url world0).1).2
  = (add_url _ demo_clock small_url world0).2.
Proof.
  destruct (add_url_idempotent _ demo_clock small_url world0) as (_ & Hsame & _).
  - vm_compute. reflexivity.
  - exact Hsame.
Defined.

Lemma update_status_last_write_wins_witness :
  db (update_status _ demo_clock small_url (py "failed") (Passed (Some (py "boom")))
        Omitted
        (update_status _ demo_clock small_url (py "completed") Omitted (Passed 7)
           world1).1).1
  = db (update_status _ demo_clock small_url (py "failed") (Passed (Some (py "boom")))
          Omitted
          (mkWorld (db world1) (redis world1) (collection world1) (S (ticks world1))
                   (waited world1))).1.
Proof.
  apply (update_status_last_write_wins _ demo_clock small_url (py "completed")
           (py "failed") Omitted (Passed (Some (py "boom"))) (Passed 7) Omitted world1).
  - vm_compute. reflexivity.
  - vm_compute. reflexivity.
Defined.

Lemma queue_fifo_witness :
  (dequeue_times _ 3 (enqueue_all _ [demo_url; small_url] world1).1).2 =
    Ok [Some (Job.mk small_url); Some (Job.mk demo_url); Some (Job.mk small_url)].
Proof.
  destruct (queue_fifo _ [demo_url; small_url] world1) as (_ & _ & Hout & _).
  - reflexivity.
  - exact Hout.
Defined.

Lemma ingest_url_unavailable_witness :
  ingest_url _ demo_clock small_url world_down =
    (world_down, Raise (HTTPException 503 (py "Queue service is not available"))).
Proof.
  apply (ingest_url_unavailable _ demo_clock small_url world_down). reflexivity.
Defined.

Lemma ingest_url_first_submission_witness :
  ∃ id w',
    ingest_url _ demo_clock small_url world0 =
      (w', Ok (IngestURLResponse.mk (py "URL submitted for processing") small_url
                                    (py "pending") (Some id)))
    ∧ (∀ r0, r0 ∈ rows (db world0) → UrlRecord.id r0 < id)
    ∧ rows (db w') =
        rows (db world0)
        ++ [UrlRecord.mk id small_url (py "pending") (demo_clock 0) (demo_clock 0) None 0]
    ∧ url_processing_queue (redis w') =
        url_processing_queue (redis world0) ++ [Job.mk small_url]
    ∧ collection w' = collection world0.
Proof.
  apply (ingest_url_first_submission _ demo_clock small_url world0); reflexivity.
Defined.

Lemma search_pairs_by_position_witness :
  ∃ hits,
    search _ _ demo_encode _ demo_collection_query (py "q") (Some 5) world_indexed =
      (world_indexed, Ok hits)
    ∧ length hits = 2%nat
    ∧ hits !! 1%nat = Some (SearchHit.mk (py "lorem") (Metadata.mk demo_url 0 3) (Some 2%nat)).
Proof.
  destruct (search_pairs_by_position _ _ demo_encode _ demo_collection_query
              (py "q") (Some 5) world_indexed [tt] demo_results
              [py "hello wide web"; py "lorem"]
              [Metadata.mk small_url 0 1; Metadata.mk demo_url 0 3]
              [1%nat; 2%nat] [] [] [])
    as (hits & Hrun & Hlen & Hpairs).
  - reflexivity.
  - reflexivity.
  - reflexivity.
  - reflexivity.
  - reflexivity.
  - simpl. lia.
  - simpl. lia.
  - exists hits. split; [exact Hrun|]. split; [exact Hlen|].
    destruct (Hpairs 1%nat (py "lorem") eq_refl) as (m & x & [= <-] & [= <-] & Hhit).
    exact Hhit.
Defined.

Lemma search_no_documents_witness :
  search _ _ demo_encode _ demo_collection_query (py "q") (Some 5) world0 = (world0, Ok []).
Proof.
  apply (search_no_documents _ _ demo_encode _ demo_collection_query
           (py "q") (Some 5) world0 [tt] empty_results).
  - reflexivity.
  - reflexivity.
  - right. right. exists []. reflexivity.
Defined.

Lemma main_query_empty_retrieval_witness :
  main_query _ _ demo_encode demo_chat _ demo_collection_query demo_validation_text
             demo_request world0 =
    (world0, Raise (HTTPException 404
                      (py "No relevant documents found. Please ingest some URLs first."))).
Proof.
  apply (main_query_empty_retrieval _ _ demo_encode demo_chat _ demo_collection_query
           demo_validation_text demo_request world0).
  reflexivity.
Defined.

Lemma main_query_generation_failure_witness :
  (main_query _ _ demo_encode demo_chat _ demo_collection_query demo_validation_text
              demo_request world_indexed).2 =
    Ok (QueryResponse.mk (py "what is on this page?")
                         (py "Error generating answer: rate limit exceeded")
                         (list_set [small_url; demo_url])
                         (len (list_set [small_url; demo_url]))).
Proof.
  rewrite (main_query_generation_failure _ _ demo_encode demo_chat _ demo_collection_query
             demo_validation_text demo_request world_indexed
             [SearchHit.mk (py "hello wide web") (Metadata.mk small_url 0 1) (Some 1%nat);
              SearchHit.mk (py "lorem") (Metadata.mk demo_url 0 3) (Some 2%nat)]
             (Exn (OtherError (py "RateLimitError")) (py "rate limit exceeded"))).
  - reflexivity.
  - reflexivity.
  - discriminate.
  - reflexivity.
Defined.


Lemma reachable_world_invariant_witness :
  db_wf (db world1) ∧ db_ids_wf (db world1) ∧ jobs_have_records _ world1.
Proof.
  apply (reachable_world_invariant _ _ demo_clock demo_soup_get_text demo_encode
           demo_collection_add utf8_stdout world1).
  apply (reachable_step _ _ _ _ _ _ _ world0 world1).
  - apply (reachable_fresh _ _ _ _ _ _ _ true [] 0%nat 0).
  - apply (step_ingest _ _ _ _ _ _ _ small_url world0).
Defined.


Lemma submit_then_process_witness :
  let w1 := (ingest_url _ demo_clock small_url world0).1 in
  let w2 := (worker_turn _ _ demo_clock demo_soup_get_text demo_encode
                         demo_collection_add utf8_stdout w1).1 in
  ∃ id,
    (ingest_url _ demo_clock small_url world0).2 =
      Ok (IngestURLResponse.mk (py "URL submitted for processing") small_url
                               (py "pending") (Some id))
    ∧ (main_get_url_status _ small_url w2).2 =
        Ok (UrlRecord.mk id small_url (py "completed") (demo_clock 0) (demo_clock 2)
                         None (len [py "hello wide web"]))
    ∧ url_processing_queue (redis w2) = [].
Proof.
  apply (submit_then_process _ _ demo_clock demo_soup_get_text demo_encode
           demo_collection_add utf8_stdout small_url world0 [py "hello wide web"]
           [Metadata.mk small_url 0 1]).
  - reflexivity.
  - reflexivity.
  - reflexivity.
  - vm_compute. reflexivity.
  - vm_compute. reflexivity.
  - vm_compute. reflexivity.
  - reflexivity.
  - reflexivity.
  - reflexivity.
Defined.
